(** * Stopwatch: the timing core of [main.c]

    A shallow embedding of the terminal stopwatch's [main.c]: the interval
    parser [parse_time_interval], the option handling of [parse_args], the two
    output formatters and the signal-driven display loop of [main].

    Conventions of the embedding.
    - The target is LP64 (the POSIX timer interface the program is written
      for): [long] and [time_t] are 64-bit, [int] is 32-bit, both two's
      complement.  Every arithmetic operation of the source is followed by its
      reduction into the signed range of its C type.
    - A C string is a [string]; reading [value[i]] at the end of the string
      yields the terminating NUL, and a NUL inside the string terminates it
      as it does in C.
    - The index [i] of the parser is kept as an exact integer: an argument
      string handed over by [execve] is far shorter than [INT_MAX] bytes. *)

From Stdlib Require Import ZArith List String Ascii Bool Lia.
Import ListNotations.

Local Open Scope string_scope.
Local Open Scope Z_scope.

(* ================================================================== *)
(** ** Machine integers *)

Module CInt.

(** Reduction of an exact integer into the signed [bits]-bit range. *)
Definition wrap_signed (bits : Z) (x : Z) : Z :=
  (x + 2 ^ (bits - 1)) mod 2 ^ bits - 2 ^ (bits - 1).

Definition to_long (x : Z) : Z := wrap_signed 64 x.
Definition to_int (x : Z) : Z := wrap_signed 32 x.

Definition LONG_MAX : Z := 2 ^ 63 - 1.
Definition LONG_MIN : Z := - 2 ^ 63.
Definition INT_MAX : Z := 2 ^ 31 - 1.
Definition INT_MIN : Z := - 2 ^ 31.

Definition long_add (a b : Z) : Z := to_long (a + b).
Definition long_sub (a b : Z) : Z := to_long (a - b).
Definition long_mul (a b : Z) : Z := to_long (a * b).
(** C division and remainder truncate toward zero. *)
Definition long_div (a b : Z) : Z := to_long (Z.quot a b).
Definition long_rem (a b : Z) : Z := to_long (Z.rem a b).

End CInt.
Import CInt.

(* ================================================================== *)
(** ** Characters and C strings *)

(** The code of a character, taken in 0..255.  Where [char] is signed the
    bytes above 127 are negative in C; they are neither digits, nor the
    point, nor NUL under either reading. *)
Definition char_code (c : ascii) : Z := Z.of_N (N_of_ascii c).

(** [isdigit] of <ctype.h> in the C locale. *)
Definition isdigit (c : Z) : bool := (48 <=? c) && (c <=? 57).

(** [value[i]] where [value] is the unread rest of the string. *)
Definition peek (value : string) : Z :=
  match value with
  | EmptyString => 0
  | String c _ => char_code c
  end.

(** [value + 1]: the rest after the character under the index. *)
Definition advance (value : string) : string :=
  match value with
  | EmptyString => EmptyString
  | String _ rest => rest
  end.

Definition CHAR_NUL : Z := 0.
Definition CHAR_DOT : Z := 46.
Definition CHAR_ZERO : Z := 48.

Definition LF : ascii := ascii_of_nat 10.
Definition CR : ascii := ascii_of_nat 13.
Definition DQUOTE : ascii := ascii_of_nat 34.

(* ================================================================== *)
(** ** [struct timespec] *)

Record timespec : Set := mk_timespec { tv_sec : Z; tv_nsec : Z }.

Definition NSEC_PER_MSEC : Z := 1000000.
Definition NSEC_PER_DECISEC : Z := 100000000.

(* ================================================================== *)
(** ** [parse_time_interval] *)

(** The first loop, [for (; isdigit(value[i]); i++)]: returns the final
    [integer_part], the final [i] and the rest of the string at [i]. *)
Fixpoint parse_integer_part (value : string) (integer_part i : Z)
  : Z * Z * string :=
  match value with
  | EmptyString => (integer_part, i, value)
  | String c rest =>
      if isdigit (char_code c)
      then parse_integer_part rest
             (long_sub (long_add (long_mul integer_part 10) (char_code c))
                CHAR_ZERO)
             (i + 1)
      else (integer_part, i, value)
  end.

(** How the second loop is left: by [goto success] when the weight reaches
    zero, or by its condition at a character that is not a digit. *)
Inductive frac_exit : Set :=
| GotoSuccess (fractional_part : Z)
| LoopEnd (fractional_part i : Z) (rest : string).

Fixpoint parse_fractional_part (value : string) (fractional_part weight i : Z)
  : frac_exit :=
  match value with
  | EmptyString => LoopEnd fractional_part i value
  | String c rest =>
      if isdigit (char_code c)
      then
        let fractional_part :=
          long_add fractional_part (long_mul (char_code c - CHAR_ZERO) weight) in
        let weight := long_div weight 10 in
        if weight =? 0
        then GotoSuccess fractional_part
        else parse_fractional_part rest fractional_part weight (i + 1)
      else LoopEnd fractional_part i value
  end.

(** The function returns its [int] status together with the contents of
    [*result] when it returns. *)
Definition parse_time_interval (value : string) (result : timespec)
  : Z * timespec :=
  let '(integer_part, i, at_i) := parse_integer_part value 0 0 in
  let success fractional_part :=
    (0, {| tv_sec := integer_part; tv_nsec := fractional_part |}) in
  if peek at_i =? CHAR_DOT then
    match parse_fractional_part (advance at_i) 0 NSEC_PER_DECISEC (i + 1) with
    | GotoSuccess fractional_part => success fractional_part
    | LoopEnd fractional_part i at_i =>
        if peek at_i =? CHAR_NUL then
          if i =? 1 then (-1, result) else success fractional_part
        else (-1, result)
    end
  else if peek at_i =? CHAR_NUL then
    if i =? 0 then (-1, result) else success 0
  else (-1, result).

(* ================================================================== *)
(** ** Reading digit strings (specification side) *)

Definition digit_of (c : ascii) : Z := char_code c - CHAR_ZERO.

Fixpoint all_digits (s : string) : bool :=
  match s with
  | EmptyString => true
  | String c rest => isdigit (char_code c) && all_digits rest
  end.

(** The exact integer denoted by a digit string, continuing from [acc]. *)
Fixpoint dec_value_from (acc : Z) (s : string) : Z :=
  match s with
  | EmptyString => acc
  | String c rest => dec_value_from (acc * 10 + digit_of c) rest
  end.

Definition dec_value (s : string) : Z := dec_value_from 0 s.

(** Positional weighting of fractional digits: the digit at the 1-based
    position [k] weighs [10 ^ (9 - k)] nanoseconds. *)
Fixpoint frac_value_at (k : Z) (s : string) : Z :=
  match s with
  | EmptyString => 0
  | String c rest => digit_of c * 10 ^ (9 - k) + frac_value_at (k + 1) rest
  end.

Definition frac_value (s : string) : Z := frac_value_at 1 s.

(** The integer part of an input: its longest prefix of digits. *)
Fixpoint leading_digits (s : string) : string :=
  match s with
  | EmptyString => EmptyString
  | String c rest =>
      if isdigit (char_code c) then String c (leading_digits rest)
      else EmptyString
  end.

Fixpoint after_digits (s : string) : string :=
  match s with
  | EmptyString => EmptyString
  | String c rest => if isdigit (char_code c) then after_digits rest else s
  end.

Definition strlen (s : string) : Z := Z.of_nat (String.length s).

(* ================================================================== *)
(** ** [printf] with the conversions the program uses *)

Definition digit_char (d : Z) : ascii := ascii_of_N (Z.to_N (CHAR_ZERO + d)).

(** Decimal digits of a non-negative integer, least significant first into
    the accumulator. *)
Fixpoint utoa (fuel : nat) (n : Z) (acc : string) : string :=
  match fuel with
  | O => acc
  | S fuel' =>
      let acc' := String (digit_char (n mod 10)) acc in
      if n / 10 =? 0 then acc' else utoa fuel' (n / 10) acc'
  end.

Definition decimal (n : Z) : string :=
  utoa (S (Z.to_nat (Z.log2 n))) n "".

Fixpoint fill (c : ascii) (n : nat) (s : string) : string :=
  match n with
  | O => s
  | S n' => String c (fill c n' s)
  end.

(** The conversion [%d] with an optional [0] flag and a minimum field
    width: the sign comes first, zeros pad between sign and digits, blanks
    pad on the left. *)
Definition format_d (zero : bool) (width : nat) (v : Z) : string :=
  let digits := decimal (Z.abs v) in
  let sign := if v <? 0 then "-" else "" in
  let missing := (width - String.length sign - String.length digits)%nat in
  if zero then sign ++ fill "0"%char missing digits
  else fill " "%char missing (sign ++ digits).

Inductive conv_state : Set :=
| Literal
| Directive (zero : bool) (width : nat).

(** The format interpreter, for [int] arguments.  A directive the program
    never uses, or a missing argument, ends the output. *)
Fixpoint vprintf (st : conv_state) (format : string) (args : list Z)
  : string :=
  match format with
  | EmptyString => EmptyString
  | String c format' =>
      match st with
      | Literal =>
          if Ascii.eqb c "%"%char
          then vprintf (Directive false 0) format' args
          else String c (vprintf Literal format' args)
      | Directive zero width =>
          if Ascii.eqb c "0"%char && negb zero && Nat.eqb width 0
          then vprintf (Directive true 0) format' args
          else if isdigit (char_code c)
          then vprintf (Directive zero (10 * width + Z.to_nat (digit_of c)))
                 format' args
          else if Ascii.eqb c "d"%char
          then match args with
               | v :: args' =>
                   format_d zero width v ++ vprintf Literal format' args'
               | [] => EmptyString
               end
          else EmptyString
      end
  end.

Definition printf (format : string) (args : list Z) : string :=
  vprintf Literal format args.

(* ================================================================== *)
(** ** The two outputs *)

Inductive buf_mode : Set := IONBF | IOLBF.

(** What the program does to the outside world, in order. *)
Inductive effect : Set :=
| Setvbuf (mode : buf_mode)
| Stdout (text : string)
| Stderr (text : string)
| Sigprocmask_block (signals : list Z)
| Timer_settime (it_interval it_value : timespec).

Record output : Set := mk_output {
  init : effect;
  update : timespec -> string
}.

Definition tty_output_init : effect := Setvbuf IONBF.

Definition tty_output_update (ts : timespec) : string :=
  let ms := to_int (long_div (tv_nsec ts) NSEC_PER_MSEC) in
  let s := to_int (long_rem (tv_sec ts) 60) in
  let m := to_int (long_rem (long_div (tv_sec ts) 60) 60) in
  let h := to_int (long_div (tv_sec ts) 3600) in
  printf ("%d:%02d'%02d" ++ String DQUOTE "%03d" ++ String CR "")
    [h; m; s; ms].

Definition notty_output_init : effect := Setvbuf IOLBF.

Definition notty_output_update (ts : timespec) : string :=
  let ms := to_int (long_div (tv_nsec ts) NSEC_PER_MSEC) in
  let s := to_int (long_rem (tv_sec ts) 60) in
  let m := to_int (long_rem (long_div (tv_sec ts) 60) 60) in
  let h := to_int (long_div (tv_sec ts) 3600) in
  printf ("%d:%02d'%02d" ++ String DQUOTE "%03d" ++ String LF "")
    [h; m; s; ms].

Definition tty_output : output :=
  {| init := tty_output_init; update := tty_output_update |}.

Definition notty_output : output :=
  {| init := notty_output_init; update := notty_output_update |}.

(* ================================================================== *)
(** ** [getopt] and [parse_args] *)

(** The scanning state of getopt(3): the index of the next [argv] element
    and the characters of the current element still to be scanned. *)
Record getopt_state : Set := mk_getopt_state {
  optind : nat;
  nextchar : string;
  optarg : string;
  optopt : Z
}.

(** Is [c] an option character of [optstring], and does it take an
    argument. *)
Fixpoint optstring_find (c : ascii) (optstring : string) : option bool :=
  match optstring with
  | EmptyString => None
  | String o rest =>
      if Ascii.eqb c o && negb (Ascii.eqb c ":"%char)
      then Some (peek rest =? char_code ":"%char)
      else optstring_find c rest
  end.

(** One call of getopt(3) for an option string that starts with [':']
    (a missing argument is reported as [':'], nothing is printed). *)
Definition getopt (argv : list string) (optstring : string)
  (st : getopt_state) : Z * getopt_state :=
  let element :=
    match nextchar st with
    | EmptyString =>
        match nth_error argv (optind st) with
        | Some (String dash (String c rest)) =>
            if Ascii.eqb dash "-"%char then Some (String c rest) else None
        | _ => None
        end
    | scanned => Some scanned
    end in
  match element with
  | None => (-1, st)
  | Some EmptyString => (-1, st)
  | Some (String c rest) =>
      if String.eqb (nextchar st) "" && String.eqb (String c rest) "-"
      then (-1, mk_getopt_state (S (optind st)) "" (optarg st) (optopt st))
      else
        let next_index :=
          match rest with
          | EmptyString => S (optind st)
          | _ => optind st
          end in
        match optstring_find c optstring with
        | None =>
            (char_code "?"%char,
             mk_getopt_state next_index rest (optarg st) (char_code c))
        | Some false =>
            (char_code c,
             mk_getopt_state next_index rest (optarg st) (optopt st))
        | Some true =>
            match rest with
            | String _ _ =>
                (char_code c,
                 mk_getopt_state (S (optind st)) "" rest (optopt st))
            | EmptyString =>
                match nth_error argv (S (optind st)) with
                | Some a =>
                    (char_code c,
                     mk_getopt_state (S (S (optind st))) "" a (optopt st))
                | None =>
                    (char_code ":"%char,
                     mk_getopt_state (S (optind st)) "" (optarg st)
                       (char_code c))
                end
            end
        end
  end.

(** A call either returns a value or ends the process through exit(3). *)
Inductive proc (A : Type) : Type :=
| Ret (a : A)
| Exit (code : Z)
| OutOfFuel.
Arguments Ret {A} a.
Arguments Exit {A} code.
Arguments OutOfFuel {A}.

Definition char_string (c : Z) : string :=
  String (ascii_of_N (Z.to_N c)) "".

Definition usage {A : Type} (prog_name : string) : list effect * proc A :=
  ([Stderr ("usage: " ++ prog_name ++ " [-d delay]" ++ String LF "")], Exit 1).

Definition prepend {A : Type} (es : list effect) (r : list effect * A)
  : list effect * A :=
  ((es ++ fst r)%list, snd r).

Fixpoint parse_args_loop (fuel : nat) (argv : list string)
  (st : getopt_state) (refresh_interval : timespec)
  : list effect * proc timespec :=
  match fuel with
  | O => ([], OutOfFuel)
  | S fuel' =>
      let prog := nth 0 argv "" in
      let '(opt, st') := getopt argv ":d:h" st in
      if opt =? -1 then
        if Nat.eqb (optind st') (List.length argv)
        then ([], Ret refresh_interval)
        else prepend [Stderr ("unexpected argument" ++ String LF "")]
               (usage prog)
      else if opt =? char_code "d"%char then
        let '(status, refresh_interval') :=
          parse_time_interval (optarg st') refresh_interval in
        if status =? 0
        then parse_args_loop fuel' argv st' refresh_interval'
        else prepend
               [Stderr ("invalid value for option -" ++ char_string opt
                        ++ ": " ++ optarg st' ++ String LF "")]
               (usage prog)
      else if opt =? char_code "h"%char then usage prog
      else if opt =? char_code "?"%char then
        prepend
          [Stderr ("unrecognized option -" ++ char_string (optopt st')
                   ++ String LF "")]
          (usage prog)
      else if opt =? char_code ":"%char then
        prepend
          [Stderr ("option -" ++ char_string (optopt st')
                   ++ " requires an argument" ++ String LF "")]
          (usage prog)
      else parse_args_loop fuel' argv st' refresh_interval
  end.

(** [argv] holds the program name and the arguments; whatever
    [*refresh_interval] held on entry is overwritten by the default. *)
Definition parse_args (argv : list string) (refresh_interval : timespec)
  : list effect * proc timespec :=
  let refresh_interval :=
    {| tv_sec := 0; tv_nsec := long_mul 100 NSEC_PER_MSEC |} in
  parse_args_loop (S (List.length argv)) argv (mk_getopt_state 1 "" "" 0)
    refresh_interval.

(* ================================================================== *)
(** ** [main] and its display loop *)

Definition SIGINT : Z := 2.

(** What the environment answers during one run.  Each delivery pairs the
    value returned by one sigwaitinfo(2) call with the time that
    [stopwatch_get_time] stores if it is called after that return. *)
Record world : Set := mk_world {
  isatty_stdout : bool;
  SIGRTMIN : Z;
  stopwatch_init_result : Z;
  timer_create_result : Z;
  timer_settime_result : Z;
  deliveries : list (Z * timespec)
}.

Inductive status : Set :=
| Blocked
| Returned (code : Z)
| Exited (code : Z).

(** The loop [while (curr_signal != SIGINT)] followed by the final
    [putchar] and [return 0].  When the deliveries run out the process is
    still waiting in sigwaitinfo(2). *)
Fixpoint display_loop (output : output) (curr_signal : Z)
  (deliveries : list (Z * timespec)) : list effect * status :=
  if curr_signal =? SIGINT
  then ([Stdout (String LF "")], Returned 0)
  else
    match deliveries with
    | [] => ([], Blocked)
    | (signal, curr_time) :: rest =>
        if signal =? -1
        then ([Stderr ("error calling sigwaitinfo" ++ String LF "")],
              Returned (-1))
        else prepend [Stdout (update output curr_time)]
               (display_loop output signal rest)
    end.

Definition main (w : world) (argv : list string) (uninitialised : timespec)
  : list effect * status :=
  let output := if isatty_stdout w then tty_output else notty_output in
  prepend [init output]
    match parse_args argv uninitialised with
    | (es, Exit code) => (es, Exited code)
    | (es, OutOfFuel) => (es, Blocked)
    | (es, Ret refresh_interval) =>
        prepend es
          (if negb (stopwatch_init_result w =? 0)
           then ([Stderr ("couldn't init stopwatch" ++ String LF "")],
                 Returned (-1))
           else
             prepend [Sigprocmask_block [SIGINT; SIGRTMIN w]]
               (if timer_create_result w =? -1
                then ([Stderr ("could't init refresh timer" ++ String LF "")],
                      Returned (-1))
                else
                  prepend [Timer_settime refresh_interval refresh_interval]
                    (if timer_settime_result w =? -1
                     then
                       ([Stderr ("could't init refresh timer" ++ String LF "")],
                        Returned (-1))
                     else display_loop output 0 (deliveries w))))
    end.

(* ================================================================== *)
(** ** The display loop as the specification words it *)

Inductive loop_state : Set := Running | Stopped.

(** "On Tick: compute elapsed, forward to the output sink, remain Running.
    On Stop: emit a final newline to the sink, transition to Stopped." *)
Definition spec_display_step (output : output) (event : Z * timespec)
  : list effect * loop_state :=
  if fst event =? SIGINT
  then ([Stdout (String LF "")], Stopped)
  else ([Stdout (update output (snd event))], Running).

Fixpoint spec_display_run (output : output) (events : list (Z * timespec))
  : list effect * loop_state :=
  match events with
  | [] => ([], Running)
  | event :: rest =>
      match spec_display_step output event with
      | (es, Stopped) => (es, Stopped)
      | (es, Running) => prepend es (spec_display_run output rest)
      end
  end.

(* ================================================================== *)
(** ** Definitions the statements below use *)

(** The interval [parse_args] installs before it reads the options. *)
Definition default_interval : timespec := mk_timespec 0 100000000.

(** A number below 100 on exactly two digits, below 1000 on three. *)
Definition two_digits (n : Z) : string :=
  String (digit_char (n / 10)) (String (digit_char (n mod 10)) "").

Definition three_digits (n : Z) : string :=
  String (digit_char (n / 100)) (two_digits (n mod 100)).

(** The four [int] fields both formatters compute from a [timespec]. *)
Definition hms_fields (ts : timespec) : Z * Z * Z * Z :=
  (to_int (long_div (tv_sec ts) 3600),
   to_int (long_rem (long_div (tv_sec ts) 60) 60),
   to_int (long_rem (tv_sec ts) 60),
   to_int (long_div (tv_nsec ts) NSEC_PER_MSEC)).

(** The text of the four fields without a line terminator. *)
Definition hms_text (fields : Z * Z * Z * Z) : string :=
  let '(h, m, s, ms) := fields in
  format_d false 0 h ++ ":" ++ format_d true 2 m ++ "'"
  ++ format_d true 2 s ++ String DQUOTE (format_d true 3 ms).

(** The rendering as the specification words it: whole hours without
    padding, a colon, minutes on two digits, an apostrophe, seconds on two
    digits, a double quote, truncated milliseconds on three digits. *)
Definition render_hms (ts : timespec) : string :=
  decimal (tv_sec ts / 3600) ++ ":" ++ two_digits (tv_sec ts / 60 mod 60)
  ++ "'" ++ two_digits (tv_sec ts mod 60)
  ++ String DQUOTE (three_digits (tv_nsec ts / 1000000)).

(** A string without its last character, and that character. *)
Fixpoint but_last (s : string) : string :=
  match s with
  | EmptyString => EmptyString
  | String c EmptyString => EmptyString
  | String c rest => String c (but_last rest)
  end.

Fixpoint last_char (s : string) : option ascii :=
  match s with
  | EmptyString => None
  | String c EmptyString => Some c
  | String c rest => last_char rest
  end.

(** A delivery of the timer signal: neither a failed wait nor SIGINT. *)
Definition is_tick (delivery : Z * timespec) : Prop :=
  fst delivery <> -1 /\ fst delivery <> SIGINT.

(* ================================================================== *)
(** ** Definitions for the further properties *)

(** The first [n] characters of a string and what follows them. *)
Fixpoint take (n : nat) (s : string) : string :=
  match n, s with
  | S n', String c rest => String c (take n' rest)
  | _, _ => EmptyString
  end.

Fixpoint drop (n : nat) (s : string) : string :=
  match n, s with
  | S n', String _ rest => drop n' rest
  | _, _ => s
  end.

(** The characters after the integer digits and the point. *)
Definition after_point (value : string) : string :=
  advance (after_digits value).

(** The language of the interval parser: integer digits alone (at least
    one); or digits, a point and fewer than nine digits up to the end of the
    string, with a digit somewhere; or digits, a point and nine digits,
    followed by anything. *)
Definition accepted (value : string) : bool :=
  let ds := leading_digits value in
  if peek (after_digits value) =? CHAR_DOT then
    let fs := leading_digits (after_point value) in
    (9 <=? String.length fs)%nat
    || ((peek (after_digits (after_point value)) =? CHAR_NUL)
        && negb (String.eqb ds "" && String.eqb fs ""))
  else
    (peek (after_digits value) =? CHAR_NUL) && negb (String.eqb ds "").

(** The duration an accepted input denotes: the integer digits as seconds
    in a [long], the first nine fractional digits by their weights. *)
Definition parsed_duration (value : string) : timespec :=
  {| tv_sec := to_long (dec_value (leading_digits value));
     tv_nsec :=
       if peek (after_digits value) =? CHAR_DOT
       then frac_value (take 9 (leading_digits (after_point value)))
       else 0 |}.

(** The line [usage] writes before it ends the process. *)
Definition usage_line (prog_name : string) : effect :=
  Stderr ("usage: " ++ prog_name ++ " [-d delay]" ++ String LF "").

Definition is_stderr (e : effect) : bool :=
  match e with
  | Stderr _ => true
  | _ => false
  end.

Definition is_stdout (e : effect) : bool :=
  match e with
  | Stdout _ => true
  | _ => false
  end.

(** The first delivery that is not a tick: the value of the failed wait
    or SIGINT, if there is one. *)
Fixpoint first_stop (deliveries : list (Z * timespec)) : option Z :=
  match deliveries with
  | [] => None
  | (signal, _) :: rest =>
      if (signal =? -1) || (signal =? SIGINT) then Some signal
      else first_stop rest
  end.

(** The samples the output writes for a list of deliveries. *)
Definition samples (output : output) (deliveries : list (Z * timespec))
  : list effect :=
  map (fun delivery => Stdout (update output (snd delivery))) deliveries.

(* ================================================================== *)
(** ** Facts about machine integers *)

Section MachineIntegers.

Lemma two_64 : 2 ^ 64 = 18446744073709551616.
Proof. reflexivity. Qed.

Lemma to_long_unfold x :
  to_long x = (x + 9223372036854775808) mod 18446744073709551616
              - 9223372036854775808.
Proof. reflexivity. Qed.

Lemma to_int_unfold x :
  to_int x = (x + 2147483648) mod 4294967296 - 2147483648.
Proof. reflexivity. Qed.

Lemma to_long_small x : LONG_MIN <= x <= LONG_MAX -> to_long x = x.
Proof.
  unfold LONG_MIN, LONG_MAX. intros Hx. rewrite to_long_unfold.
  rewrite Z.mod_small; lia.
Qed.

Lemma to_int_small x : INT_MIN <= x <= INT_MAX -> to_int x = x.
Proof.
  unfold INT_MIN, INT_MAX. intros Hx. rewrite to_int_unfold.
  rewrite Z.mod_small; lia.
Qed.

Lemma to_long_range x : LONG_MIN <= to_long x <= LONG_MAX.
Proof.
  unfold LONG_MIN, LONG_MAX. rewrite to_long_unfold.
  pose proof (Z.mod_pos_bound (x + 9223372036854775808)
                18446744073709551616 eq_refl).
  lia.
Qed.

(** Adding a multiple of [2 ^ 64] is invisible after reduction. *)
Lemma to_long_period x k : to_long (x + k * 2 ^ 64) = to_long x.
Proof.
  rewrite two_64, !to_long_unfold.
  replace (x + k * 18446744073709551616 + 9223372036854775808)
    with (x + 9223372036854775808 + k * 18446744073709551616) by ring.
  now rewrite Z.mod_add.
Qed.

Lemma to_long_repr x : exists k, to_long x = x + k * 2 ^ 64.
Proof.
  exists (- ((x + 9223372036854775808) / 18446744073709551616)).
  rewrite two_64, to_long_unfold, Z.mod_eq by lia. ring.
Qed.

(** One round of [integer_part * 10 + value[i] - '0'], three reductions,
    agrees with a single reduction of the exact result. *)
Lemma long_digit_step v c :
  long_sub (long_add (long_mul (to_long v) 10) c) CHAR_ZERO
  = to_long (v * 10 + (c - CHAR_ZERO)).
Proof.
  unfold long_sub, long_add, long_mul.
  destruct (to_long_repr v) as [k0 ->].
  destruct (to_long_repr ((v + k0 * 2 ^ 64) * 10)) as [k1 ->].
  destruct (to_long_repr ((v + k0 * 2 ^ 64) * 10 + k1 * 2 ^ 64 + c))
    as [k2 ->].
  rewrite <- (to_long_period (v * 10 + (c - CHAR_ZERO)) (10 * k0 + k1 + k2)).
  f_equal. ring.
Qed.

End MachineIntegers.

(* ================================================================== *)
(** ** Facts about strings of digits *)

Section DigitStrings.

Lemma append_assoc (a b c : string) : (a ++ b) ++ c = a ++ (b ++ c).
Proof. induction a as [|x a IH]; simpl; [reflexivity | now rewrite IH]. Qed.

Lemma append_empty_r (a : string) : a ++ "" = a.
Proof. induction a as [|x a IH]; simpl; [reflexivity | now rewrite IH]. Qed.

Lemma strlen_cons c s : strlen (String c s) = strlen s + 1.
Proof. unfold strlen. simpl String.length. lia. Qed.

Lemma strlen_nonneg s : 0 <= strlen s.
Proof. unfold strlen. lia. Qed.

Lemma isdigit_range c :
  isdigit (char_code c) = true -> 0 <= digit_of c <= 9.
Proof.
  unfold isdigit, digit_of, CHAR_ZERO. intros H.
  apply andb_true_iff in H. destruct H as [H1 H2].
  apply Z.leb_le in H1. apply Z.leb_le in H2. lia.
Qed.

Lemma leading_after s : leading_digits s ++ after_digits s = s.
Proof.
  induction s as [|c s IH]; simpl; [reflexivity|].
  destruct (isdigit (char_code c)); simpl; [now rewrite IH | reflexivity].
Qed.

Lemma leading_all_digits s : all_digits (leading_digits s) = true.
Proof.
  induction s as [|c s IH]; simpl; [reflexivity|].
  destruct (isdigit (char_code c)) eqn:E; simpl; [now rewrite E | reflexivity].
Qed.

Lemma after_not_digit s : isdigit (peek (after_digits s)) = false.
Proof.
  induction s as [|c s IH]; simpl; [reflexivity|].
  destruct (isdigit (char_code c)) eqn:E; simpl; assumption.
Qed.

Lemma leading_digits_app ds rest :
  all_digits ds = true -> isdigit (peek rest) = false ->
  leading_digits (ds ++ rest) = ds.
Proof.
  induction ds as [|c ds IH]; simpl; intros Hds Hrest.
  - destruct rest as [|r rest]; simpl in *; [reflexivity | now rewrite Hrest].
  - apply andb_true_iff in Hds. destruct Hds as [Hc Hds].
    rewrite Hc. f_equal. now apply IH.
Qed.

Lemma dec_value_from_lower acc s :
  all_digits s = true -> 0 <= acc -> acc <= dec_value_from acc s.
Proof.
  revert acc. induction s as [|c s IH]; simpl; intros acc Hs Hacc.
  - lia.
  - apply andb_true_iff in Hs. destruct Hs as [Hc Hs].
    pose proof (isdigit_range c Hc).
    specialize (IH (acc * 10 + digit_of c) Hs). lia.
Qed.

Lemma dec_value_nonneg s : all_digits s = true -> 0 <= dec_value s.
Proof. intros Hs. now apply (dec_value_from_lower 0 s). Qed.

(** A string of [n] digits continuing from [acc] stays below
    [(acc + 1) * 10 ^ n]. *)
Lemma dec_value_from_upper acc s :
  all_digits s = true -> 0 <= acc ->
  dec_value_from acc s < (acc + 1) * 10 ^ strlen s.
Proof.
  revert acc. induction s as [|c s IH]; intros acc Hs Hacc.
  - simpl. unfold strlen. simpl. lia.
  - simpl in Hs. apply andb_true_iff in Hs. destruct Hs as [Hc Hs].
    pose proof (isdigit_range c Hc) as Hd.
    simpl dec_value_from. rewrite strlen_cons.
    rewrite Z.pow_add_r by (pose proof (strlen_nonneg s); lia).
    specialize (IH (acc * 10 + digit_of c) Hs).
    assert (0 < 10 ^ strlen s)
      by (apply Z.pow_pos_nonneg; [lia | apply strlen_nonneg]).
    nia.
Qed.

End DigitStrings.

(* ================================================================== *)
(** ** The two loops of the parser *)

Section ParserLoops.

(** The integer loop consumes exactly the leading digits and leaves the
    reduction of their exact value. *)
Lemma parse_integer_part_digits ds rest v i :
  all_digits ds = true -> isdigit (peek rest) = false ->
  parse_integer_part (ds ++ rest) (to_long v) i
  = (to_long (dec_value_from v ds), i + strlen ds, rest).
Proof.
  revert v i. induction ds as [|c ds IH]; intros v i Hds Hrest.
  - simpl append. simpl dec_value_from. unfold strlen. simpl String.length.
    rewrite Z.add_0_r.
    destruct rest as [|r rest]; simpl in *; [reflexivity | now rewrite Hrest].
  - simpl in Hds. apply andb_true_iff in Hds. destruct Hds as [Hc Hds].
    simpl. rewrite Hc, long_digit_step.
    rewrite (IH _ _ Hds Hrest), strlen_cons.
    unfold digit_of. f_equal. f_equal. lia.
Qed.

Lemma parse_integer_part_spec s :
  parse_integer_part s 0 0
  = (to_long (dec_value (leading_digits s)),
     strlen (leading_digits s), after_digits s).
Proof.
  rewrite <- (leading_after s) at 1.
  change 0 with (to_long 0) at 1.
  rewrite parse_integer_part_digits
    by (apply leading_all_digits || apply after_not_digit).
  reflexivity.
Qed.

(** One round of the fractional loop at the 1-based position [k]: nothing
    wraps, the weight drops to the next power of ten and reaches zero
    after the ninth digit. *)
Lemma frac_round k acc d :
  1 <= k <= 9 -> 0 <= d <= 9 -> 0 <= acc -> acc + 10 ^ (10 - k) <= 10 ^ 9 ->
  long_add acc (long_mul d (10 ^ (9 - k))) = acc + d * 10 ^ (9 - k)
  /\ long_div (10 ^ (9 - k)) 10 = (if k =? 9 then 0 else 10 ^ (9 - (k + 1)))
  /\ 0 <= acc + d * 10 ^ (9 - k) < 10 ^ 9
  /\ (k < 9 -> acc + d * 10 ^ (9 - k) + 10 ^ (10 - (k + 1)) <= 10 ^ 9).
Proof.
  intros Hk Hd Hacc Hroom.
  assert (Hcases : k = 1 \/ k = 2 \/ k = 3 \/ k = 4 \/ k = 5 \/ k = 6
                   \/ k = 7 \/ k = 8 \/ k = 9) by lia.
  unfold long_add, long_mul.
  repeat (destruct Hcases as [-> | Hcases]); try subst k;
    cbn in Hroom |- *;
    (rewrite (to_long_small (d * _))
       by (unfold LONG_MIN, LONG_MAX; cbn; lia));
    (rewrite to_long_small by (unfold LONG_MIN, LONG_MAX; cbn; lia));
    repeat split; try reflexivity; lia.
Qed.

Lemma weight_nonzero k : 1 <= k < 9 -> (10 ^ (9 - (k + 1)) =? 0) = false.
Proof.
  intros Hk. apply Z.eqb_neq.
  assert (0 < 10 ^ (9 - (k + 1))) by (apply Z.pow_pos_nonneg; lia). lia.
Qed.

(** Fewer than nine fractional digits in all: the loop ends at the first
    character that is not a digit. *)
Lemma parse_fractional_part_short fs rest k acc i :
  all_digits fs = true -> isdigit (peek rest) = false ->
  1 <= k -> k + strlen fs <= 9 ->
  0 <= acc -> acc + 10 ^ (10 - k) <= 10 ^ 9 ->
  parse_fractional_part (fs ++ rest) acc (10 ^ (9 - k)) i
  = LoopEnd (acc + frac_value_at k fs) (i + strlen fs) rest.
Proof.
  revert k acc i. induction fs as [|c fs IH]; intros k acc i Hfs Hrest Hk Hlen Hacc Hroom.
  - simpl append. simpl frac_value_at. unfold strlen. simpl String.length.
    rewrite !Z.add_0_r.
    destruct rest as [|r rest]; simpl in *; [reflexivity | now rewrite Hrest].
  - simpl in Hfs. apply andb_true_iff in Hfs. destruct Hfs as [Hc Hfs].
    rewrite strlen_cons in *. pose proof (strlen_nonneg fs) as Hn.
    pose proof (isdigit_range c Hc) as Hd. unfold digit_of in Hd.
    destruct (frac_round k acc (char_code c - CHAR_ZERO))
      as (Hadd & Hdiv & Hrange & Hnext); try lia.
    cbn [parse_fractional_part append]. rewrite Hc, Hadd, Hdiv.
    replace (k =? 9) with false by (symmetry; apply Z.eqb_neq; lia).
    rewrite weight_nonzero by lia.
    rewrite IH by (assumption || lia).
    cbn [frac_value_at]. unfold digit_of. f_equal; lia.
Qed.

(** Digits up to and including the ninth position: the loop is left by
    [goto success] and what follows is never read. *)
Lemma parse_fractional_part_full fs rest k acc i :
  all_digits fs = true ->
  1 <= k <= 9 -> k + strlen fs = 10 ->
  0 <= acc -> acc + 10 ^ (10 - k) <= 10 ^ 9 ->
  parse_fractional_part (fs ++ rest) acc (10 ^ (9 - k)) i
  = GotoSuccess (acc + frac_value_at k fs).
Proof.
  revert k acc i. induction fs as [|c fs IH]; intros k acc i Hfs Hk Hlen Hacc Hroom.
  - unfold strlen in Hlen. simpl in Hlen. lia.
  - simpl in Hfs. apply andb_true_iff in Hfs. destruct Hfs as [Hc Hfs].
    rewrite strlen_cons in *. pose proof (strlen_nonneg fs) as Hn.
    pose proof (isdigit_range c Hc) as Hd. unfold digit_of in Hd.
    destruct (frac_round k acc (char_code c - CHAR_ZERO))
      as (Hadd & Hdiv & Hrange & Hnext); try lia.
    cbn [parse_fractional_part append]. rewrite Hc, Hadd, Hdiv.
    destruct (k =? 9) eqn:Hk9.
    + apply Z.eqb_eq in Hk9. subst k.
      assert (Hlen0 : strlen fs = 0) by lia.
      destruct fs as [|c' fs'];
        [| rewrite strlen_cons in Hlen0; pose proof (strlen_nonneg fs'); lia].
      rewrite Z.eqb_refl. cbn [frac_value_at]. unfold digit_of. f_equal. lia.
    + apply Z.eqb_neq in Hk9.
      rewrite weight_nonzero by lia.
      rewrite IH by (assumption || lia).
      cbn [frac_value_at]. unfold digit_of. f_equal. lia.
Qed.

(** Whatever the input, the fractional part stays a sub-second amount. *)
Lemma parse_fractional_part_range value k acc i :
  1 <= k <= 9 -> 0 <= acc -> acc + 10 ^ (10 - k) <= 10 ^ 9 ->
  match parse_fractional_part value acc (10 ^ (9 - k)) i with
  | GotoSuccess fractional_part => 0 <= fractional_part < 10 ^ 9
  | LoopEnd fractional_part _ _ => 0 <= fractional_part < 10 ^ 9
  end.
Proof.
  revert k acc i. induction value as [|c value IH]; intros k acc i Hk Hacc Hroom.
  - simpl. assert (0 < 10 ^ (10 - k)) by (apply Z.pow_pos_nonneg; lia). lia.
  - assert (Hpos : 0 < 10 ^ (10 - k)) by (apply Z.pow_pos_nonneg; lia).
    cbn [parse_fractional_part]. destruct (isdigit (char_code c)) eqn:Hc; [| lia].
    pose proof (isdigit_range c Hc) as Hd. unfold digit_of in Hd.
    destruct (frac_round k acc (char_code c - CHAR_ZERO))
      as (Hadd & Hdiv & Hrange & Hnext); try lia.
    rewrite Hadd, Hdiv.
    destruct (k =? 9) eqn:Hk9; [rewrite Z.eqb_refl; lia |].
    apply Z.eqb_neq in Hk9. rewrite weight_nonzero by lia.
    apply IH; lia.
Qed.

End ParserLoops.

(* ================================================================== *)
(** ** What [parse_time_interval] returns *)

Section ParserResults.

Variable result : timespec.

Lemma after_digits_app ds rest :
  all_digits ds = true -> isdigit (peek rest) = false ->
  after_digits (ds ++ rest) = rest.
Proof.
  induction ds as [|c ds IH]; simpl; intros Hds Hrest.
  - destruct rest as [|r rest]; simpl in *; [reflexivity | now rewrite Hrest].
  - apply andb_true_iff in Hds. destruct Hds as [Hc Hds].
    rewrite Hc. now apply IH.
Qed.

(** The function in terms of the integer digits and what follows them. *)
Lemma parse_time_interval_split ds rest :
  all_digits ds = true -> isdigit (peek rest) = false ->
  parse_time_interval (ds ++ rest) result
  = let success fractional_part :=
      (0, {| tv_sec := to_long (dec_value ds);
             tv_nsec := fractional_part |}) in
    if peek rest =? CHAR_DOT then
      match parse_fractional_part (advance rest) 0 NSEC_PER_DECISEC
              (strlen ds + 1) with
      | GotoSuccess fractional_part => success fractional_part
      | LoopEnd fractional_part i at_i =>
          if peek at_i =? CHAR_NUL then
            if i =? 1 then (-1, result) else success fractional_part
          else (-1, result)
      end
    else if peek rest =? CHAR_NUL then
      if strlen ds =? 0 then (-1, result) else success 0
    else (-1, result).
Proof.
  intros Hds Hrest. unfold parse_time_interval.
  rewrite parse_integer_part_spec.
  rewrite leading_digits_app, after_digits_app by assumption.
  reflexivity.
Qed.

Lemma strlen_zero s : strlen s = 0 -> s = "".
Proof.
  destruct s as [|c s]; [reflexivity|].
  rewrite strlen_cons. pose proof (strlen_nonneg s). lia.
Qed.

Lemma parse_integer_only ds :
  all_digits ds = true -> ds <> "" ->
  parse_time_interval ds result
  = (0, {| tv_sec := to_long (dec_value ds); tv_nsec := 0 |}).
Proof.
  intros Hds Hne. rewrite <- (append_empty_r ds) at 1.
  rewrite parse_time_interval_split by (assumption || reflexivity).
  cbn. destruct (strlen ds =? 0) eqn:E; [| reflexivity].
  apply Z.eqb_eq in E. now apply strlen_zero in E.
Qed.

Lemma parse_trailing_dot ds :
  all_digits ds = true ->
  parse_time_interval (ds ++ ".") result
  = if String.eqb ds "" then (-1, result)
    else (0, {| tv_sec := to_long (dec_value ds); tv_nsec := 0 |}).
Proof.
  intros Hds.
  rewrite parse_time_interval_split by (assumption || reflexivity).
  cbn. destruct ds as [|c ds]; [reflexivity|].
  rewrite strlen_cons. pose proof (strlen_nonneg ds).
  replace (strlen ds + 1 + 1 =? 1) with false
    by (symmetry; apply Z.eqb_neq; lia).
  reflexivity.
Qed.

Lemma parse_fraction_short ds fs :
  all_digits ds = true -> all_digits fs = true ->
  1 <= strlen fs <= 8 ->
  parse_time_interval (ds ++ "." ++ fs) result
  = (0, {| tv_sec := to_long (dec_value ds); tv_nsec := frac_value fs |}).
Proof.
  intros Hds Hfs Hlen.
  rewrite parse_time_interval_split by (assumption || reflexivity).
  cbn [peek advance append]. change (char_code ".") with CHAR_DOT.
  rewrite Z.eqb_refl. cbv zeta.
  rewrite <- (append_empty_r fs) at 1.
  change NSEC_PER_DECISEC with (10 ^ (9 - 1)).
  rewrite parse_fractional_part_short
    by first [assumption | reflexivity | lia | cbn; lia].
  cbn [peek]. change (CHAR_NUL =? CHAR_NUL) with true. cbv iota.
  pose proof (strlen_nonneg ds).
  replace (strlen ds + 1 + strlen fs =? 1) with false
    by (symmetry; apply Z.eqb_neq; lia).
  reflexivity.
Qed.

Lemma parse_fraction_full ds fs suffix :
  all_digits ds = true -> all_digits fs = true ->
  strlen fs = 9 ->
  parse_time_interval (ds ++ "." ++ fs ++ suffix) result
  = (0, {| tv_sec := to_long (dec_value ds); tv_nsec := frac_value fs |}).
Proof.
  intros Hds Hfs Hlen.
  rewrite parse_time_interval_split by (assumption || reflexivity).
  cbn [peek advance append]. change (char_code ".") with CHAR_DOT.
  rewrite Z.eqb_refl. cbv zeta.
  change NSEC_PER_DECISEC with (10 ^ (9 - 1)).
  rewrite parse_fractional_part_full
    by first [assumption | reflexivity | lia | cbn; lia].
  reflexivity.
Qed.

(** Every success stores the reduced value of the integer digits and a
    sub-second fractional part. *)
Lemma parse_success_shape value r :
  parse_time_interval value result = (0, r) ->
  tv_sec r = to_long (dec_value (leading_digits value))
  /\ 0 <= tv_nsec r < 10 ^ 9.
Proof.
  unfold parse_time_interval. rewrite parse_integer_part_spec.
  pose proof (parse_fractional_part_range
                (advance (after_digits value)) 1 0
                (strlen (leading_digits value) + 1)) as Hrange.
  change (10 ^ (9 - 1)) with NSEC_PER_DECISEC in Hrange.
  destruct (peek (after_digits value) =? CHAR_DOT).
  - destruct (parse_fractional_part _ _ _ _) as [fp | fp i at_i].
    + intros [= <-]. cbn. split; [reflexivity | apply Hrange; cbn; lia].
    + destruct (peek at_i =? CHAR_NUL); [| discriminate].
      destruct (i =? 1); [discriminate |].
      intros [= <-]. cbn. split; [reflexivity | apply Hrange; cbn; lia].
  - destruct (peek (after_digits value) =? CHAR_NUL); [| discriminate].
    destruct (strlen (leading_digits value) =? 0); [discriminate |].
    intros [= <-]. cbn. split; [reflexivity | lia].
Qed.

End ParserResults.

(* ================================================================== *)
(** ** The interval parser: accepted and rejected inputs *)

(** C1, as stated, fails: the input "1." is not rejected.  After the
    integer digit and the point the fractional loop reads no digit, the
    index is 2 and not 1, and the function stores 1 s 0 ns and returns 0. *)
Lemma trailing_dot_is_accepted :
  fst (parse_time_interval "1." default_interval) = 0
  /\ snd (parse_time_interval "1." default_interval) = mk_timespec 1 0.
Proof. split; reflexivity. Qed.

(** C1, amended: the parser returns -1 and leaves the duration untouched
    for "", ".", "1.2.3", "abc", "-1" and "1 "; a decimal point followed by
    zero digits is rejected only when no integer digit precedes it, so "1."
    and every other digit string followed by a point is accepted with a
    zero fractional part. *)
Theorem parse_time_interval_rejected_inputs (result : timespec) (ds : string) :
  all_digits ds = true ->
  parse_time_interval "" result = (-1, result)
  /\ parse_time_interval "." result = (-1, result)
  /\ parse_time_interval "1.2.3" result = (-1, result)
  /\ parse_time_interval "abc" result = (-1, result)
  /\ parse_time_interval "-1" result = (-1, result)
  /\ parse_time_interval "1 " result = (-1, result)
  /\ parse_time_interval "1." result = (0, mk_timespec 1 0)
  /\ parse_time_interval (ds ++ ".") result
     = if String.eqb ds "" then (-1, result)
       else (0, mk_timespec (to_long (dec_value ds)) 0).
Proof.
  intros Hds. repeat (split; [reflexivity |]).
  now apply parse_trailing_dot.
Qed.

Lemma parse_time_interval_rejected_inputs_witness :
  all_digits "60" = true
  /\ parse_time_interval "60." default_interval = (0, mk_timespec 60 0).
Proof.
  split; [reflexivity |].
  destruct (parse_time_interval_rejected_inputs default_interval "60" eq_refl)
    as (_ & _ & _ & _ & _ & _ & _ & H).
  exact H.
Defined.

(** C3: a string of one or more digits parses with a zero nanosecond
    part, and digits, a point and one to nine fractional digits parse with
    the nanosecond part given by the positional weights [10 ^ (9 - k)];
    the seconds are the (reduced) value of the integer digits. *)
Theorem parse_time_interval_exact_weights (result : timespec) (ds fs : string) :
  all_digits ds = true -> ds <> "" ->
  all_digits fs = true -> (1 <= String.length fs <= 9)%nat ->
  parse_time_interval ds result
  = (0, mk_timespec (to_long (dec_value ds)) 0)
  /\ parse_time_interval (ds ++ "." ++ fs) result
     = (0, mk_timespec (to_long (dec_value ds)) (frac_value fs))
  /\ parse_time_interval "1.5" result = (0, mk_timespec 1 500000000)
  /\ parse_time_interval "0.1" result = (0, mk_timespec 0 100000000)
  /\ parse_time_interval "2.123456789" result = (0, mk_timespec 2 123456789).
Proof.
  intros Hds Hne Hfs Hlen. split; [now apply parse_integer_only |].
  split; [| repeat split; reflexivity].
  destruct (Z.eq_dec (strlen fs) 9) as [H9 | H9].
  - rewrite <- (append_empty_r fs) at 1.
    now apply parse_fraction_full.
  - apply parse_fraction_short; try assumption. unfold strlen in *. lia.
Qed.

Lemma parse_time_interval_exact_weights_witness :
  (all_digits "12" = true /\ "12" <> ""
   /\ all_digits "0375" = true /\ (1 <= String.length "0375" <= 9)%nat)
  /\ parse_time_interval "12" default_interval = (0, mk_timespec 12 0)
  /\ parse_time_interval "12.0375" default_interval
     = (0, mk_timespec 12 37500000).
Proof.
  assert (Hne : "12" <> "") by discriminate.
  assert (Hlen : (1 <= String.length "0375" <= 9)%nat) by (simpl; lia).
  split; [repeat split; solve [reflexivity | assumption | simpl; lia] |].
  destruct (parse_time_interval_exact_weights default_interval "12" "0375"
              eq_refl Hne eq_refl Hlen) as (H1 & H2 & _).
  split; [exact H1 | exact H2].
Defined.

(** C4, as stated, fails: nineteen digits denote 2^63, which the 64-bit
    [integer_part] cannot hold; the seconds stored are -2^63. *)
Lemma long_integer_part_wraps :
  fst (parse_time_interval "9223372036854775808" default_interval) = 0
  /\ tv_sec (snd (parse_time_interval "9223372036854775808" default_interval))
     = -9223372036854775808
  /\ dec_value (leading_digits "9223372036854775808") = 9223372036854775808.
Proof. repeat split; reflexivity. Qed.

(** C4, amended: for every accepted input the seconds are the value of the
    integer digits reduced into the 64-bit signed range; they equal the
    exact value whenever that value is at most [LONG_MAX], in particular
    for every integer part of at most 18 digits. *)
Theorem parse_time_interval_seconds (value : string) (result r : timespec) :
  parse_time_interval value result = (0, r) ->
  tv_sec r = to_long (dec_value (leading_digits value))
  /\ (dec_value (leading_digits value) <= LONG_MAX ->
      tv_sec r = dec_value (leading_digits value))
  /\ ((String.length (leading_digits value) <= 18)%nat ->
      tv_sec r = dec_value (leading_digits value)).
Proof.
  intros Hparse.
  destruct (parse_success_shape result value r Hparse) as [Hsec _].
  pose proof (dec_value_nonneg _ (leading_all_digits value)) as Hpos.
  assert (Hexact : dec_value (leading_digits value) <= LONG_MAX ->
                   tv_sec r = dec_value (leading_digits value)).
  { intros Hmax. rewrite Hsec. apply to_long_small.
    unfold LONG_MIN. lia. }
  split; [assumption |]. split; [assumption |].
  intros Hlen. apply Hexact.
  pose proof (dec_value_from_upper 0 _ (leading_all_digits value)
                (Z.le_refl 0)) as Hup.
  fold (dec_value (leading_digits value)) in Hup.
  assert (10 ^ strlen (leading_digits value) <= 10 ^ 18)
    by (apply Z.pow_le_mono_r; unfold strlen; lia).
  unfold LONG_MAX. change (2 ^ 63 - 1) with 9223372036854775807.
  change (10 ^ 18) with 1000000000000000000 in *. lia.
Qed.

Lemma parse_time_interval_seconds_witness :
  parse_time_interval "86400.25" default_interval
  = (0, mk_timespec 86400 250000000)
  /\ tv_sec (mk_timespec 86400 250000000)
     = dec_value (leading_digits "86400.25").
Proof.
  split; [reflexivity |].
  destruct (parse_time_interval_seconds "86400.25" default_interval
              (mk_timespec 86400 250000000) eq_refl) as (_ & _ & H).
  apply H. simpl. lia.
Defined.

(** C5: after digits, a point and nine fractional digits the parse succeeds
    with the duration those nine digits determine, whatever follows them;
    the suffix is never read. *)
Theorem parse_time_interval_ignores_suffix
  (result : timespec) (ds fs suffix : string) :
  all_digits ds = true -> all_digits fs = true -> String.length fs = 9%nat ->
  parse_time_interval (ds ++ "." ++ fs ++ suffix) result
  = (0, mk_timespec (to_long (dec_value ds)) (frac_value fs))
  /\ parse_time_interval (ds ++ "." ++ fs ++ suffix) result
     = parse_time_interval (ds ++ "." ++ fs) result.
Proof.
  intros Hds Hfs Hlen.
  assert (H9 : strlen fs = 9) by (unfold strlen; lia).
  rewrite (parse_fraction_full result ds fs suffix) by assumption.
  split; [reflexivity |].
  rewrite <- (append_empty_r fs) at 2.
  now rewrite (parse_fraction_full result ds fs "") by assumption.
Qed.

Lemma parse_time_interval_ignores_suffix_witness :
  (all_digits "2" = true /\ all_digits "123456789" = true
   /\ String.length "123456789" = 9%nat)
  /\ parse_time_interval "2.123456789x-?" default_interval
     = (0, mk_timespec 2 123456789).
Proof.
  split; [repeat split; reflexivity |].
  exact (proj1 (parse_time_interval_ignores_suffix default_interval
                  "2" "123456789" "x-?" eq_refl eq_refl eq_refl)).
Defined.

(** C6, as stated, fails on the seconds: twenty digits denoting 2^64 - 1
    are accepted and the seconds stored are -1. *)
Lemma accepted_seconds_negative :
  fst (parse_time_interval "18446744073709551615" default_interval) = 0
  /\ tv_sec (snd (parse_time_interval "18446744073709551615" default_interval))
     < 0.
Proof. split; reflexivity. Qed.

(** C6, amended: for every accepted input the nanosecond component lies in
    [0, 1e9), and the seconds are non-negative whenever the value of the
    integer digits is at most [LONG_MAX]. *)
Theorem parse_time_interval_normalized (value : string) (result r : timespec) :
  parse_time_interval value result = (0, r) ->
  0 <= tv_nsec r < 1000000000
  /\ (dec_value (leading_digits value) <= LONG_MAX -> 0 <= tv_sec r).
Proof.
  intros Hparse.
  destruct (parse_success_shape result value r Hparse) as [Hsec Hnsec].
  split; [exact Hnsec |].
  intros Hmax. rewrite Hsec.
  pose proof (dec_value_nonneg _ (leading_all_digits value)) as Hpos.
  rewrite to_long_small; [assumption | unfold LONG_MIN; lia].
Qed.

Lemma parse_time_interval_normalized_witness :
  parse_time_interval "7.999999999" default_interval
  = (0, mk_timespec 7 999999999)
  /\ 0 <= tv_nsec (mk_timespec 7 999999999) < 1000000000.
Proof.
  split; [reflexivity |].
  exact (proj1 (parse_time_interval_normalized "7.999999999" default_interval
                  (mk_timespec 7 999999999) eq_refl)).
Defined.

(** C9: whenever [parse_time_interval] returns an error, [*result] holds
    what it held on entry, both fields; the status is then -1. *)
Theorem parse_time_interval_error_atomic (value : string) (result : timespec) :
  fst (parse_time_interval value result) <> 0 ->
  snd (parse_time_interval value result) = result
  /\ fst (parse_time_interval value result) = -1.
Proof.
  unfold parse_time_interval.
  destruct (parse_integer_part value 0 0) as [[integer_part i] at_i].
  destruct (peek at_i =? CHAR_DOT).
  - destruct (parse_fractional_part _ _ _ _) as [fp | fp j at_j].
    + cbn. intros H. now contradiction H.
    + destruct (peek at_j =? CHAR_NUL); [| cbn; auto].
      destruct (j =? 1); cbn; [auto |]. intros H. now contradiction H.
  - destruct (peek at_i =? CHAR_NUL); [| cbn; auto].
    destruct (i =? 0); cbn; [auto |]. intros H. now contradiction H.
Qed.

Lemma parse_time_interval_error_atomic_witness :
  fst (parse_time_interval "1.2.3" default_interval) <> 0
  /\ snd (parse_time_interval "1.2.3" default_interval) = default_interval.
Proof.
  assert (H : fst (parse_time_interval "1.2.3" default_interval) <> 0)
    by (cbv; discriminate).
  split; [exact H |].
  exact (proj1 (parse_time_interval_error_atomic "1.2.3" default_interval H)).
Defined.

(* ================================================================== *)
(** ** Decimal output *)

Section DecimalOutput.

Lemma digit_char_code d :
  0 <= d <= 9 -> char_code (digit_char d) = CHAR_ZERO + d.
Proof.
  intros Hd.
  assert (Hcases : d = 0 \/ d = 1 \/ d = 2 \/ d = 3 \/ d = 4 \/ d = 5
                   \/ d = 6 \/ d = 7 \/ d = 8 \/ d = 9) by lia.
  repeat (destruct Hcases as [-> | Hcases]); try subst d; reflexivity.
Qed.

Lemma digit_char_isdigit d :
  0 <= d <= 9 -> isdigit (char_code (digit_char d)) = true.
Proof.
  intros Hd. rewrite digit_char_code by assumption.
  unfold isdigit, CHAR_ZERO. apply andb_true_iff.
  split; apply Z.leb_le; lia.
Qed.

Lemma digit_of_digit_char d : 0 <= d <= 9 -> digit_of (digit_char d) = d.
Proof.
  intros Hd. unfold digit_of. rewrite digit_char_code by assumption. lia.
Qed.

Lemma dec_value_from_app v a b :
  dec_value_from v (a ++ b) = dec_value_from (dec_value_from v a) b.
Proof.
  revert v. induction a as [|c a IH]; intros v; simpl;
    [reflexivity | apply IH].
Qed.

Lemma all_digits_app a b :
  all_digits (a ++ b) = all_digits a && all_digits b.
Proof.
  induction a as [|c a IH]; simpl; [reflexivity |].
  now rewrite IH, andb_assoc.
Qed.

Lemma utoa_S fuel n acc :
  utoa (S fuel) n acc
  = if n / 10 =? 0 then String (digit_char (n mod 10)) acc
    else utoa fuel (n / 10) (String (digit_char (n mod 10)) acc).
Proof. reflexivity. Qed.

(** With enough fuel the digits written in front of the accumulator read
    back as the number. *)
Lemma utoa_digits fuel :
  forall n acc,
    0 <= n < 2 ^ Z.of_nat (S fuel) ->
    exists p, utoa (S fuel) n acc = p ++ acc
              /\ all_digits p = true /\ dec_value p = n.
Proof.
  induction fuel as [|fuel IH]; intros n acc Hn.
  - change (2 ^ Z.of_nat 1) with 2 in Hn.
    exists (String (digit_char n) "").
    cbn [utoa]. rewrite Z.div_small, Z.mod_small by lia.
    cbn [Z.eqb append all_digits]. rewrite digit_char_isdigit by lia.
    unfold dec_value. cbn [dec_value_from].
    rewrite digit_of_digit_char by lia. repeat split.
  - pose proof (Z.mod_pos_bound n 10 eq_refl) as Hmod.
    pose proof (Z.div_mod n 10 ltac:(lia)) as Hdm.
    rewrite utoa_S. destruct (n / 10 =? 0) eqn:Hq.
    + apply Z.eqb_eq in Hq.
      exists (String (digit_char (n mod 10)) "").
      cbn [append all_digits]. rewrite digit_char_isdigit by lia.
      unfold dec_value. cbn [dec_value_from].
      rewrite digit_of_digit_char by lia. repeat split. lia.
    + assert (Hsmall : 0 <= n / 10 < 2 ^ Z.of_nat (S fuel)).
      { rewrite (Nat2Z.inj_succ (S fuel)), Z.pow_succ_r in Hn by lia.
        split; [apply Z.div_pos; lia |].
        apply Z.div_lt_upper_bound; lia. }
      destruct (IH (n / 10) (String (digit_char (n mod 10)) acc) Hsmall)
        as (p & Hp & Hall & Hval).
      exists (p ++ String (digit_char (n mod 10)) "").
      rewrite Hp, append_assoc. split; [reflexivity |].
      rewrite all_digits_app, Hall. cbn [all_digits].
      rewrite digit_char_isdigit by lia. split; [reflexivity |].
      unfold dec_value in *. rewrite dec_value_from_app, Hval.
      cbn [dec_value_from]. rewrite digit_of_digit_char by lia. lia.
Qed.

Lemma decimal_digits n :
  0 <= n -> all_digits (decimal n) = true /\ dec_value (decimal n) = n.
Proof.
  intros Hn. unfold decimal.
  assert (Hfuel : 0 <= n < 2 ^ Z.of_nat (S (Z.to_nat (Z.log2 n)))).
  { split; [assumption |].
    rewrite Nat2Z.inj_succ, Z2Nat.id by apply Z.log2_nonneg.
    destruct (Z.eq_dec n 0) as [-> | Hnz]; [reflexivity |].
    apply Z.log2_spec. lia. }
  destruct (utoa_digits _ n "" Hfuel) as (p & Hp & Hall & Hval).
  rewrite Hp, append_empty_r. now split.
Qed.

Lemma log2_fuel n k :
  2 ^ Z.of_nat k <= n -> exists f, Z.to_nat (Z.log2 n) = (k + f)%nat.
Proof.
  intros Hn. exists (Z.to_nat (Z.log2 n) - k)%nat.
  assert (Z.of_nat k <= Z.log2 n).
  { rewrite <- (Z.log2_pow2 (Z.of_nat k)) by lia.
    now apply Z.log2_le_mono. }
  lia.
Qed.

Lemma decimal_one_digit n :
  0 <= n < 10 -> decimal n = String (digit_char n) "".
Proof.
  intros Hn. unfold decimal. cbn [utoa].
  now rewrite Z.div_small, Z.mod_small by lia.
Qed.

Lemma decimal_two_digits n : 10 <= n < 100 -> decimal n = two_digits n.
Proof.
  intros Hn. unfold decimal, two_digits.
  destruct (log2_fuel n 1) as [f ->]; [cbn; lia |].
  assert (1 <= n / 10 < 10)
    by (split; [apply Z.div_le_lower_bound | apply Z.div_lt_upper_bound];
        lia).
  cbn [utoa Nat.add].
  replace (n / 10 =? 0) with false by (symmetry; apply Z.eqb_neq; lia).
  rewrite (Z.div_small (n / 10)), (Z.mod_small (n / 10)) by lia.
  reflexivity.
Qed.

Lemma decimal_three_digits n :
  100 <= n < 1000 -> decimal n = three_digits n.
Proof.
  intros Hn. unfold decimal, three_digits, two_digits.
  destruct (log2_fuel n 2) as [f ->]; [cbn; lia |].
  assert (10 <= n / 10 < 100)
    by (split; [apply Z.div_le_lower_bound | apply Z.div_lt_upper_bound];
        lia).
  assert (Hq : n / 10 / 10 = n / 100)
    by (rewrite Z.div_div by lia; reflexivity).
  assert (1 <= n / 100 < 10)
    by (split; [apply Z.div_le_lower_bound | apply Z.div_lt_upper_bound];
        lia).
  assert (Hm : n / 10 mod 10 = n mod 100 / 10).
  { pose proof (Z.div_mod n 100 ltac:(lia)).
    pose proof (Z.mod_pos_bound n 100 eq_refl).
    pose proof (Z.div_mod (n mod 100) 10 ltac:(lia)).
    pose proof (Z.mod_pos_bound (n mod 100) 10 eq_refl).
    pose proof (Z.div_mod (n / 10) 10 ltac:(lia)).
    pose proof (Z.mod_pos_bound (n / 10) 10 eq_refl).
    pose proof (Z.div_mod n 10 ltac:(lia)).
    pose proof (Z.mod_pos_bound n 10 eq_refl).
    lia. }
  assert (Hr : n mod 10 = n mod 100 mod 10).
  { pose proof (Z.div_mod n 100 ltac:(lia)).
    pose proof (Z.mod_pos_bound n 100 eq_refl).
    pose proof (Z.div_mod (n mod 100) 10 ltac:(lia)).
    pose proof (Z.mod_pos_bound (n mod 100) 10 eq_refl).
    pose proof (Z.div_mod n 10 ltac:(lia)).
    pose proof (Z.mod_pos_bound n 10 eq_refl).
    lia. }
  cbn [utoa Nat.add].
  replace (n / 10 =? 0) with false by (symmetry; apply Z.eqb_neq; lia).
  rewrite Hq.
  replace (n / 100 =? 0) with false by (symmetry; apply Z.eqb_neq; lia).
  rewrite (Z.div_small (n / 100)), (Z.mod_small (n / 100)) by lia.
  cbn [Z.eqb]. now rewrite Hm, Hr.
Qed.

End DecimalOutput.

(* ================================================================== *)
(** ** The formatters *)

Section Formatters.

Lemma format_d_plain n : 0 <= n -> format_d false 0 n = decimal n.
Proof.
  intros Hn. unfold format_d.
  replace (n <? 0) with false by (symmetry; apply Z.ltb_ge; lia).
  now rewrite Z.abs_eq by assumption.
Qed.

Lemma format_d_02 n : 0 <= n < 100 -> format_d true 2 n = two_digits n.
Proof.
  intros Hn. unfold format_d.
  replace (n <? 0) with false by (symmetry; apply Z.ltb_ge; lia).
  rewrite Z.abs_eq by lia.
  destruct (Z_lt_dec n 10) as [Hlt | Hge].
  - rewrite decimal_one_digit by lia. unfold two_digits.
    now rewrite Z.div_small, Z.mod_small by lia.
  - now rewrite decimal_two_digits by lia.
Qed.

Lemma format_d_03 n : 0 <= n < 1000 -> format_d true 3 n = three_digits n.
Proof.
  intros Hn. unfold format_d.
  replace (n <? 0) with false by (symmetry; apply Z.ltb_ge; lia).
  rewrite Z.abs_eq by lia.
  destruct (Z_lt_dec n 10) as [Hlt | Hge10].
  - rewrite decimal_one_digit by lia. unfold three_digits, two_digits.
    rewrite (Z.div_small n 100), (Z.mod_small n 100) by lia.
    now rewrite Z.div_small, Z.mod_small by lia.
  - destruct (Z_lt_dec n 100) as [Hlt | Hge100].
    + rewrite decimal_two_digits by lia. unfold three_digits.
      now rewrite (Z.div_small n 100), (Z.mod_small n 100) by lia.
    + now rewrite decimal_three_digits by lia.
Qed.

(** On a non-negative time below 2^31 hours no conversion wraps. *)
Lemma hms_fields_exact ts :
  0 <= tv_sec ts < 3600 * 2 ^ 31 -> 0 <= tv_nsec ts < 1000000000 ->
  hms_fields ts
  = (tv_sec ts / 3600, tv_sec ts / 60 mod 60, tv_sec ts mod 60,
     tv_nsec ts / 1000000).
Proof.
  change (3600 * 2 ^ 31) with 7730941132800. intros Hsec Hnsec.
  unfold hms_fields, long_div, long_rem, NSEC_PER_MSEC.
  assert (Hh : 0 <= tv_sec ts / 3600 < 2147483648)
    by (split; [apply Z.div_pos | apply Z.div_lt_upper_bound]; lia).
  assert (Hq : 0 <= tv_sec ts / 60 < 128849018880)
    by (split; [apply Z.div_pos | apply Z.div_lt_upper_bound]; lia).
  assert (Hms : 0 <= tv_nsec ts / 1000000 < 1000)
    by (split; [apply Z.div_pos | apply Z.div_lt_upper_bound]; lia).
  pose proof (Z.mod_pos_bound (tv_sec ts) 60 eq_refl) as Hs.
  pose proof (Z.mod_pos_bound (tv_sec ts / 60) 60 eq_refl) as Hm.
  rewrite !Z.quot_div_nonneg by lia.
  rewrite (to_long_small (tv_sec ts / 60))
    by (unfold LONG_MIN, LONG_MAX; cbn; lia).
  rewrite !Z.rem_mod_nonneg by lia.
  rewrite !to_long_small by (unfold LONG_MIN, LONG_MAX; cbn; lia).
  rewrite !to_int_small by (unfold INT_MIN, INT_MAX; cbn; lia).
  reflexivity.
Qed.

Lemma tty_output_update_text ts :
  tty_output_update ts = hms_text (hms_fields ts) ++ String CR "".
Proof.
  unfold tty_output_update, hms_fields, hms_text.
  rewrite !append_assoc. reflexivity.
Qed.

Lemma notty_output_update_text ts :
  notty_output_update ts = hms_text (hms_fields ts) ++ String LF "".
Proof.
  unfold notty_output_update, hms_fields, hms_text.
  rewrite !append_assoc. reflexivity.
Qed.

End Formatters.

Section LastCharacter.

Lemma but_last_app s c : but_last (s ++ String c "") = s.
Proof.
  induction s as [|x s IH]; [reflexivity |].
  cbn [append but_last]. rewrite IH.
  destruct s; reflexivity.
Qed.

Lemma last_char_app s c : last_char (s ++ String c "") = Some c.
Proof.
  induction s as [|x s IH]; [reflexivity |].
  cbn [append last_char]. rewrite IH.
  destruct s; reflexivity.
Qed.

End LastCharacter.

(** C7, as stated, fails for the hours: they are held in an [int], so an
    elapsed time of 2^31 hours is rendered with the hours -2147483648. *)
Lemma hours_wrap_at_int :
  0 <= tv_sec (mk_timespec 7730941132800 0)
  /\ tv_sec (mk_timespec 7730941132800 0) / 3600 = 2147483648
  /\ tty_output_update (mk_timespec 7730941132800 0)
     = "-2147483648:00'00" ++ String DQUOTE "000" ++ String CR ""
  /\ tty_output_update (mk_timespec 7730941132800 0)
     <> render_hms (mk_timespec 7730941132800 0) ++ String CR "".
Proof.
  repeat split; try reflexivity.
  - cbv. discriminate.
  - vm_compute. discriminate.
Qed.

(** C7, amended: for every non-negative elapsed time shorter than 2^31
    hours, with the nanoseconds in [0, 1e9), both formatters write the
    whole hours as an unpadded decimal number, a colon, the minutes within
    the hour on two digits, an apostrophe, the seconds within the minute on
    two digits, a double quote and the milliseconds on three digits, the
    nanoseconds being truncated, followed by the line terminator; 1 hour
    2 minutes 3 seconds 45 milliseconds gives 1:02'03 and, after the double
    quote, 045. *)
Theorem output_update_renders_hms (ts : timespec) :
  0 <= tv_sec ts < 3600 * 2 ^ 31 -> 0 <= tv_nsec ts < 1000000000 ->
  tty_output_update ts = render_hms ts ++ String CR ""
  /\ notty_output_update ts = render_hms ts ++ String LF ""
  /\ all_digits (decimal (tv_sec ts / 3600)) = true
  /\ dec_value (decimal (tv_sec ts / 3600)) = tv_sec ts / 3600
  /\ render_hms (mk_timespec 3723 45000000) = "1:02'03" ++ String DQUOTE "045"
  /\ render_hms (mk_timespec 3723 45999999) = "1:02'03" ++ String DQUOTE "045".
Proof.
  intros Hsec Hnsec.
  assert (Hh : 0 <= tv_sec ts / 3600) by (apply Z.div_pos; lia).
  assert (Hms : 0 <= tv_nsec ts / 1000000 < 1000)
    by (split; [apply Z.div_pos | apply Z.div_lt_upper_bound]; lia).
  pose proof (Z.mod_pos_bound (tv_sec ts) 60 eq_refl) as Hs.
  pose proof (Z.mod_pos_bound (tv_sec ts / 60) 60 eq_refl) as Hm.
  assert (Htext : hms_text (hms_fields ts) = render_hms ts).
  { rewrite hms_fields_exact by assumption. unfold hms_text, render_hms.
    now rewrite format_d_plain, !format_d_02, format_d_03 by lia. }
  rewrite tty_output_update_text, notty_output_update_text, Htext.
  destruct (decimal_digits _ Hh) as [Hall Hval].
  repeat split; solve [assumption | reflexivity].
Qed.

Lemma output_update_renders_hms_witness :
  (0 <= tv_sec (mk_timespec 3723 45000000) < 3600 * 2 ^ 31
   /\ 0 <= tv_nsec (mk_timespec 3723 45000000) < 1000000000)
  /\ tty_output_update (mk_timespec 3723 45000000)
     = render_hms (mk_timespec 3723 45000000) ++ String CR "".
Proof.
  assert (H1 : 0 <= tv_sec (mk_timespec 3723 45000000) < 3600 * 2 ^ 31)
    by (cbn; lia).
  assert (H2 : 0 <= tv_nsec (mk_timespec 3723 45000000) < 1000000000)
    by (cbn; lia).
  split; [split; assumption |].
  exact (proj1 (output_update_renders_hms (mk_timespec 3723 45000000) H1 H2)).
Defined.

(** C10: for every [timespec] the two formatters compute the same four
    fields and write the same text; the outputs differ only in their last
    character, a carriage return for the terminal and a newline
    otherwise. *)
Theorem tty_notty_same_text (ts : timespec) :
  tty_output_update ts = hms_text (hms_fields ts) ++ String CR ""
  /\ notty_output_update ts = hms_text (hms_fields ts) ++ String LF ""
  /\ but_last (tty_output_update ts) = but_last (notty_output_update ts)
  /\ last_char (tty_output_update ts) = Some CR
  /\ last_char (notty_output_update ts) = Some LF.
Proof.
  rewrite tty_output_update_text, notty_output_update_text.
  rewrite !but_last_app, !last_char_app. repeat split.
Qed.

(* ================================================================== *)
(** ** Options and the display loop *)

(** C8: without command-line arguments [parse_args] returns the interval
    0 s 100,000,000 ns, whatever [*refresh_interval] held before, and that
    interval is what [main] arms the timer with. *)
Theorem default_refresh_interval
  (prog : string) (garbage : timespec) (tty : bool) (sigrtmin : Z)
  (events : list (Z * timespec)) :
  parse_args [prog] garbage = ([], Ret (mk_timespec 0 100000000))
  /\ main (mk_world tty sigrtmin 0 0 0 events) [prog] garbage
     = let output := if tty then tty_output else notty_output in
       prepend [init output; Sigprocmask_block [SIGINT; sigrtmin];
                Timer_settime (mk_timespec 0 100000000)
                  (mk_timespec 0 100000000)]
         (display_loop output 0 events).
Proof.
  split; [reflexivity |].
  destruct tty; reflexivity.
Qed.

Section DisplayLoop.

Variable output : output.

Lemma display_loop_running curr_signal signal curr_time rest :
  curr_signal <> SIGINT ->
  display_loop output curr_signal ((signal, curr_time) :: rest)
  = if signal =? -1
    then ([Stderr ("error calling sigwaitinfo" ++ String LF "")],
          Returned (-1))
    else prepend [Stdout (update output curr_time)]
           (display_loop output signal rest).
Proof.
  intros Hrun. cbn [display_loop].
  now replace (curr_signal =? SIGINT) with false
    by (symmetry; now apply Z.eqb_neq).
Qed.

Lemma display_loop_stopped deliveries :
  display_loop output SIGINT deliveries
  = ([Stdout (String LF "")], Returned 0).
Proof. destruct deliveries; reflexivity. Qed.

(** Any number of ticks and then the stop: one sample per delivery, the
    stop included, then the newline. *)
Lemma display_loop_run ticks curr_signal stop_time rest :
  curr_signal <> SIGINT -> Forall is_tick ticks ->
  display_loop output curr_signal (ticks ++ (SIGINT, stop_time) :: rest)%list
  = ((map (fun d => Stdout (update output (snd d))) ticks
      ++ [Stdout (update output stop_time); Stdout (String LF "")])%list,
     Returned 0).
Proof.
  intros Hrun Hticks. revert curr_signal Hrun.
  induction Hticks as [| [signal curr_time] ticks [Herr Hint] _ IH];
    intros curr_signal Hrun.
  - cbn [app map]. rewrite display_loop_running by assumption.
    change (SIGINT =? -1) with false. cbv iota.
    now rewrite display_loop_stopped.
  - cbn [app map]. cbn [fst] in Herr, Hint.
    rewrite display_loop_running by assumption.
    replace (signal =? -1) with false by (symmetry; now apply Z.eqb_neq).
    now rewrite IH by assumption.
Qed.

End DisplayLoop.

(** C2, as stated, fails on Stop: when sigwaitinfo returns SIGINT the loop
    body still runs to its end, so the elapsed time is sampled and written
    before the loop condition is tested and the newline is written. *)
Lemma stop_forwards_a_sample :
  display_loop notty_output 0 [(SIGINT, mk_timespec 3723 45000000)]
  = ([Stdout (notty_output_update (mk_timespec 3723 45000000));
      Stdout (String LF "")], Returned 0)
  /\ spec_display_run notty_output [(SIGINT, mk_timespec 3723 45000000)]
     = ([Stdout (String LF "")], Stopped)
  /\ fst (display_loop notty_output 0 [(SIGINT, mk_timespec 3723 45000000)])
     <> fst (spec_display_run notty_output
               [(SIGINT, mk_timespec 3723 45000000)]).
Proof.
  split; [reflexivity |]. split; [reflexivity |].
  cbn [display_loop spec_display_run spec_display_step prepend fst snd
       Z.eqb SIGINT Pos.eqb app].
  discriminate.
Qed.

(** C2, amended: while the loop is running, a failed sigwaitinfo reports
    the error and returns -1; every other delivery, the Stop event (SIGINT)
    included, has the elapsed time sampled and forwarded to the output;
    after a Tick the loop keeps running, after Stop it then writes the final
    newline and returns 0; with nothing delivered it stays blocked. *)
Theorem display_loop_transitions
  (output : output) (curr_signal signal : Z) (curr_time : timespec)
  (rest : list (Z * timespec)) :
  curr_signal <> SIGINT ->
  display_loop output curr_signal [] = ([], Blocked)
  /\ display_loop output curr_signal ((signal, curr_time) :: rest)
     = if signal =? -1
       then ([Stderr ("error calling sigwaitinfo" ++ String LF "")],
             Returned (-1))
       else if signal =? SIGINT
       then ([Stdout (update output curr_time); Stdout (String LF "")],
             Returned 0)
       else prepend [Stdout (update output curr_time)]
              (display_loop output signal rest).
Proof.
  intros Hrun. split.
  - cbn [display_loop].
    now replace (curr_signal =? SIGINT) with false
      by (symmetry; now apply Z.eqb_neq).
  - rewrite display_loop_running by assumption.
    destruct (signal =? -1); [reflexivity |].
    destruct (signal =? SIGINT) eqn:Hint; [| reflexivity].
    apply Z.eqb_eq in Hint. subst signal.
    now rewrite display_loop_stopped.
Qed.

Lemma display_loop_transitions_witness :
  0 <> SIGINT
  /\ display_loop tty_output 0 [(34, mk_timespec 0 100000000);
                                (SIGINT, mk_timespec 0 150000000)]
     = prepend [Stdout (tty_output_update (mk_timespec 0 100000000))]
         (display_loop tty_output 34 [(SIGINT, mk_timespec 0 150000000)]).
Proof.
  assert (H : 0 <> SIGINT) by discriminate.
  split; [exact H |].
  exact (proj2 (display_loop_transitions tty_output 0 34
                  (mk_timespec 0 100000000)
                  [(SIGINT, mk_timespec 0 150000000)] H)).
Defined.

(* ================================================================== *)
(** ** The interval parser on every input *)

Section ParserLanguage.

Lemma take_drop n s : take n s ++ drop n s = s.
Proof.
  revert s. induction n as [|n IH]; intros [|c s]; simpl; try reflexivity.
  now rewrite IH.
Qed.

Lemma take_all n s : (String.length s <= n)%nat -> take n s = s.
Proof.
  revert s. induction n as [|n IH]; intros [|c s]; simpl; intros Hlen;
    try reflexivity; try lia.
  rewrite IH by lia. reflexivity.
Qed.

Lemma take_length n s :
  (n <= String.length s)%nat -> String.length (take n s) = n.
Proof.
  revert s. induction n as [|n IH]; intros [|c s]; simpl; intros Hlen;
    try reflexivity; try lia.
  rewrite IH by lia. reflexivity.
Qed.

Lemma take_all_digits n s : all_digits s = true -> all_digits (take n s) = true.
Proof.
  revert s. induction n as [|n IH]; intros [|c s]; simpl; intros Hs;
    try reflexivity.
  apply andb_true_iff in Hs. destruct Hs as [Hc Hs].
  now rewrite Hc, IH.
Qed.

(** The fractional loop on any input, started after the point. *)
Lemma parse_fractional_part_spec value i :
  parse_fractional_part value 0 NSEC_PER_DECISEC i
  = if (9 <=? String.length (leading_digits value))%nat
    then GotoSuccess (frac_value (take 9 (leading_digits value)))
    else LoopEnd (frac_value (take 9 (leading_digits value)))
           (i + strlen (leading_digits value)) (after_digits value).
Proof.
  change NSEC_PER_DECISEC with (10 ^ (9 - 1)).
  pose proof (leading_all_digits value) as Hall.
  destruct (9 <=? String.length (leading_digits value))%nat eqn:Hlen.
  - apply Nat.leb_le in Hlen.
    rewrite <- (leading_after value) at 1.
    rewrite <- (take_drop 9 (leading_digits value)) at 1.
    rewrite append_assoc.
    rewrite parse_fractional_part_full;
      [reflexivity | now apply take_all_digits | lia | | lia | cbn; lia].
    unfold strlen. rewrite take_length by assumption. reflexivity.
  - apply Nat.leb_gt in Hlen.
    rewrite <- (leading_after value) at 1.
    rewrite parse_fractional_part_short;
      [ | assumption | apply after_not_digit | lia | unfold strlen; lia
        | lia | cbn; lia].
    rewrite take_all by lia. reflexivity.
Qed.

Lemma strlen_eqb_empty s : (strlen s =? 0) = String.eqb s "".
Proof.
  destruct s as [|c s]; [reflexivity |].
  rewrite strlen_cons. pose proof (strlen_nonneg s).
  cbn [String.eqb]. apply Z.eqb_neq. lia.
Qed.

Lemma index_after_point_eqb ds fs :
  (strlen ds + 1 + strlen fs =? 1) = String.eqb ds "" && String.eqb fs "".
Proof.
  rewrite <- !strlen_eqb_empty.
  pose proof (strlen_nonneg ds). pose proof (strlen_nonneg fs).
  destruct (Z.eqb_spec (strlen ds) 0); destruct (Z.eqb_spec (strlen fs) 0);
    cbn [andb]; [apply Z.eqb_eq | apply Z.eqb_neq ..]; lia.
Qed.

(** The function on every input: the language it accepts and the duration
    it stores. *)
Lemma parse_time_interval_cases value result :
  parse_time_interval value result
  = if accepted value then (0, parsed_duration value) else (-1, result).
Proof.
  unfold parse_time_interval, accepted, parsed_duration, after_point.
  rewrite parse_integer_part_spec.
  destruct (peek (after_digits value) =? CHAR_DOT) eqn:Hdot.
  - rewrite parse_fractional_part_spec.
    destruct (9 <=? String.length
                      (leading_digits (advance (after_digits value))))%nat;
      [reflexivity |].
    cbn [orb].
    destruct (peek (after_digits (advance (after_digits value))) =? CHAR_NUL);
      [| reflexivity].
    rewrite index_after_point_eqb. cbn [andb].
    destruct (String.eqb (leading_digits value) ""
              && String.eqb (leading_digits (advance (after_digits value))) "");
      reflexivity.
  - destruct (peek (after_digits value) =? CHAR_NUL); [| reflexivity].
    rewrite strlen_eqb_empty. cbn [andb].
    destruct (String.eqb (leading_digits value) ""); reflexivity.
Qed.

Lemma fill_zero_digits n : all_digits (fill "0"%char n "") = true.
Proof. induction n as [|n IH]; [reflexivity | exact IH]. Qed.

Lemma frac_value_at_take_zeros k m n :
  frac_value_at k (take m (fill "0"%char n "")) = 0.
Proof.
  revert k n. induction m as [|m IH]; intros k [|n]; try reflexivity.
  cbn [fill take frac_value_at]. rewrite IH.
  change (digit_of "0") with 0. lia.
Qed.

(** Zeros appended to the fractional digits weigh nothing, also when only
    the first [m] digits are read. *)
Lemma frac_value_at_padded fs k m n :
  (String.length fs <= m)%nat ->
  frac_value_at k (take m (fs ++ fill "0"%char n "")) = frac_value_at k fs.
Proof.
  revert k m. induction fs as [|c fs IH]; intros k m Hlen.
  - cbn [append frac_value_at]. apply frac_value_at_take_zeros.
  - destruct m as [|m]; [simpl in Hlen; lia |].
    cbn [append take frac_value_at]. rewrite IH by (simpl in Hlen; lia).
    reflexivity.
Qed.

Lemma strlen_app a b : strlen (a ++ b) = strlen a + strlen b.
Proof.
  induction a as [|c a IH]; [unfold strlen; simpl; lia |].
  cbn [append]. rewrite !strlen_cons, IH. lia.
Qed.

(** Continuing from [acc] shifts [acc] by one decimal place per digit. *)
Lemma dec_value_from_shift acc s :
  dec_value_from acc s = acc * 10 ^ strlen s + dec_value s.
Proof.
  unfold dec_value. revert acc. induction s as [|c s IH]; intros acc.
  - cbn [dec_value_from]. unfold strlen. simpl. lia.
  - cbn [dec_value_from]. rewrite strlen_cons.
    rewrite Z.pow_add_r by (pose proof (strlen_nonneg s); lia).
    rewrite (IH (acc * 10 + digit_of c)), (IH (0 * 10 + digit_of c)). ring.
Qed.

(** The positional weights are the decimal reading of the digits, scaled
    to nanoseconds. *)
Lemma frac_value_at_scaled fs k :
  1 <= k -> k + strlen fs <= 10 ->
  frac_value_at k fs = dec_value fs * 10 ^ (10 - k - strlen fs).
Proof.
  revert k. induction fs as [|c fs IH]; intros k Hk Hlen.
  - reflexivity.
  - rewrite strlen_cons in *. pose proof (strlen_nonneg fs) as Hn.
    cbn [frac_value_at]. rewrite IH by lia.
    unfold dec_value at 2. cbn [dec_value_from].
    rewrite dec_value_from_shift.
    replace (9 - k) with (strlen fs + (10 - k - (strlen fs + 1))) by lia.
    rewrite Z.pow_add_r by lia.
    replace (10 - (k + 1) - strlen fs) with (10 - k - (strlen fs + 1)) by lia.
    ring.
Qed.

End ParserLanguage.

(** X1: the parser on every input.  An input of the language [accepted]
    gives status 0 and the duration [parsed_duration]; every other input
    gives status -1 and leaves the duration as it was. *)
Theorem parse_time_interval_language (value : string) (result : timespec) :
  parse_time_interval value result
  = if accepted value then (0, parsed_duration value) else (-1, result).
Proof. apply parse_time_interval_cases. Qed.

(** X2: a point followed by one to nine digits, with no integer digit
    before it, is accepted with zero seconds. *)
Theorem parse_time_interval_bare_fraction (result : timespec) (fs : string) :
  all_digits fs = true -> (1 <= String.length fs <= 9)%nat ->
  parse_time_interval ("." ++ fs) result = (0, mk_timespec 0 (frac_value fs)).
Proof.
  intros Hfs Hlen.
  destruct (Z.eq_dec (strlen fs) 9) as [H9 | H9].
  - rewrite <- (append_empty_r fs) at 1.
    now apply (parse_fraction_full result "" fs "").
  - apply (parse_fraction_short result "" fs); try assumption; try reflexivity.
    unfold strlen in *. lia.
Qed.

Lemma parse_time_interval_bare_fraction_witness :
  (all_digits "25" = true /\ (1 <= String.length "25" <= 9)%nat)
  /\ parse_time_interval ".25" default_interval = (0, mk_timespec 0 250000000).
Proof.
  assert (Hlen : (1 <= String.length "25" <= 9)%nat) by (simpl; lia).
  split; [split; [reflexivity | exact Hlen] |].
  exact (parse_time_interval_bare_fraction default_interval "25" eq_refl Hlen).
Defined.

(** X3: zeros appended to a fraction of one to nine digits, however many,
    do not change the result. *)
Theorem parse_time_interval_trailing_zeros
  (result : timespec) (ds fs : string) (n : nat) :
  all_digits ds = true -> all_digits fs = true ->
  (1 <= String.length fs <= 9)%nat ->
  parse_time_interval (ds ++ "." ++ fs ++ fill "0"%char n "") result
  = parse_time_interval (ds ++ "." ++ fs) result.
Proof.
  intros Hds Hfs Hlen.
  assert (Hright : parse_time_interval (ds ++ "." ++ fs) result
                   = (0, mk_timespec (to_long (dec_value ds)) (frac_value fs))).
  { destruct (Z.eq_dec (strlen fs) 9) as [H9 | H9].
    - rewrite <- (append_empty_r fs) at 1. now apply parse_fraction_full.
    - apply parse_fraction_short; try assumption. unfold strlen in *. lia. }
  rewrite Hright.
  assert (Hall : all_digits (fs ++ fill "0"%char n "") = true)
    by (rewrite all_digits_app, Hfs, fill_zero_digits; reflexivity).
  pose proof (frac_value_at_padded fs 1 9 n ltac:(lia)) as Hpad.
  fold (frac_value fs) in Hpad.
  destruct (le_lt_dec 9 (String.length (fs ++ fill "0"%char n ""))) as [Hge | Hlt].
  - rewrite <- (take_drop 9 (fs ++ fill "0"%char n "")).
    rewrite parse_fraction_full;
      [ | assumption | now apply take_all_digits
        | unfold strlen; rewrite take_length by assumption; reflexivity].
    unfold frac_value. now rewrite Hpad.
  - rewrite parse_fraction_short;
      [ | assumption | assumption | ].
    + rewrite take_all in Hpad by lia. unfold frac_value. now rewrite Hpad.
    + rewrite strlen_app. unfold strlen in *.
      assert (String.length (fs ++ fill "0"%char n "")
              = (String.length fs + String.length (fill "0"%char n ""))%nat).
      { clear. induction fs as [|c fs IH]; [reflexivity | simpl; now rewrite IH]. }
      lia.
Qed.

Lemma parse_time_interval_trailing_zeros_witness :
  (all_digits "1" = true /\ all_digits "5" = true
   /\ (1 <= String.length "5" <= 9)%nat)
  /\ parse_time_interval "1.5000000000000" default_interval
     = parse_time_interval "1.5" default_interval.
Proof.
  assert (Hlen : (1 <= String.length "5" <= 9)%nat) by (simpl; lia).
  split; [repeat split; solve [reflexivity | simpl; lia] |].
  exact (parse_time_interval_trailing_zeros default_interval "1" "5" 12
           eq_refl eq_refl Hlen).
Defined.

(** X4: a zero written before an input that starts with a digit does not
    change the result. *)
Theorem parse_time_interval_leading_zero (value : string) (result : timespec) :
  isdigit (peek value) = true ->
  parse_time_interval (String "0" value) result
  = parse_time_interval value result.
Proof.
  intros Hdigit. rewrite !parse_time_interval_cases.
  destruct value as [|c value]; [discriminate |]. cbn [peek] in Hdigit.
  unfold accepted, parsed_duration, after_point.
  cbn [leading_digits after_digits]. change (isdigit (char_code "0")) with true.
  cbv iota. rewrite Hdigit. cbn [String.eqb andb negb].
  replace (dec_value (String "0" (String c (leading_digits value))))
    with (dec_value (String c (leading_digits value))) by reflexivity.
  destruct (Ascii.eqb "0" c), (Ascii.eqb c "0"); reflexivity.
Qed.

Lemma parse_time_interval_leading_zero_witness :
  isdigit (peek "7.25") = true
  /\ parse_time_interval "07.25" default_interval
     = parse_time_interval "7.25" default_interval.
Proof.
  split; [reflexivity |].
  exact (parse_time_interval_leading_zero "7.25" default_interval eq_refl).
Defined.

(** X5: the stored duration is the decimal number that was written: for
    integer digits within [LONG_MAX] and one to nine fractional digits, the
    seconds times 1e9 plus the nanoseconds equal the digits read without
    the point, scaled by the power of ten of the missing places. *)
Theorem parse_time_interval_decimal_reading
  (result : timespec) (ds fs : string) :
  all_digits ds = true -> all_digits fs = true ->
  (1 <= String.length fs <= 9)%nat -> dec_value ds <= LONG_MAX ->
  fst (parse_time_interval (ds ++ "." ++ fs) result) = 0
  /\ tv_sec (snd (parse_time_interval (ds ++ "." ++ fs) result)) * 10 ^ 9
     + tv_nsec (snd (parse_time_interval (ds ++ "." ++ fs) result))
     = dec_value (ds ++ fs) * 10 ^ (9 - strlen fs).
Proof.
  intros Hds Hfs Hlen Hmax.
  assert (Hparse : parse_time_interval (ds ++ "." ++ fs) result
                   = (0, mk_timespec (to_long (dec_value ds)) (frac_value fs))).
  { destruct (Z.eq_dec (strlen fs) 9) as [H9 | H9].
    - rewrite <- (append_empty_r fs) at 1. now apply parse_fraction_full.
    - apply parse_fraction_short; try assumption. unfold strlen in *. lia. }
  rewrite Hparse. cbn [fst snd tv_sec tv_nsec]. split; [reflexivity |].
  pose proof (dec_value_nonneg ds Hds) as Hpos.
  rewrite to_long_small by (unfold LONG_MIN; lia).
  assert (Hn : 1 <= strlen fs <= 9) by (unfold strlen; lia).
  unfold frac_value. rewrite frac_value_at_scaled by lia.
  unfold dec_value at 3. rewrite dec_value_from_app.
  fold (dec_value ds). rewrite dec_value_from_shift.
  replace (10 - 1 - strlen fs) with (9 - strlen fs) by lia.
  replace 9 with (strlen fs + (9 - strlen fs)) at 1 by lia.
  rewrite Z.pow_add_r by lia. ring.
Qed.

Lemma parse_time_interval_decimal_reading_witness :
  (all_digits "12" = true /\ all_digits "034" = true
   /\ (1 <= String.length "034" <= 9)%nat /\ dec_value "12" <= LONG_MAX)
  /\ tv_sec (snd (parse_time_interval "12.034" default_interval)) * 10 ^ 9
     + tv_nsec (snd (parse_time_interval "12.034" default_interval))
     = dec_value "12034" * 10 ^ (9 - strlen "034").
Proof.
  assert (Hlen : (1 <= String.length "034" <= 9)%nat) by (simpl; lia).
  assert (Hmax : dec_value "12" <= LONG_MAX) by (cbv; discriminate).
  split; [repeat split; solve [reflexivity | simpl; lia | exact Hmax] |].
  exact (proj2 (parse_time_interval_decimal_reading default_interval
                  "12" "034" eq_refl eq_refl Hlen Hmax)).
Defined.

(** X6: the status depends on the input string alone, and on success so
    does the duration stored: nothing of the previous contents remains. *)
Theorem parse_time_interval_ignores_previous
  (value : string) (result1 result2 : timespec) :
  fst (parse_time_interval value result1)
  = fst (parse_time_interval value result2)
  /\ (fst (parse_time_interval value result1) = 0 ->
      snd (parse_time_interval value result1)
      = snd (parse_time_interval value result2)).
Proof.
  rewrite !parse_time_interval_cases.
  destruct (accepted value); cbn [fst snd]; split;
    try reflexivity; discriminate.
Qed.

Lemma parse_time_interval_ignores_previous_witness :
  fst (parse_time_interval "3.5" (mk_timespec 9 9)) = 0
  /\ snd (parse_time_interval "3.5" (mk_timespec 9 9))
     = snd (parse_time_interval "3.5" default_interval).
Proof.
  split; [reflexivity |].
  exact (proj2 (parse_time_interval_ignores_previous "3.5" (mk_timespec 9 9)
                  default_interval) eq_refl).
Defined.

(* ================================================================== *)
(** ** Option parsing *)

Section Options.

Lemma optstring_find_dh c :
  optstring_find c ":d:h"
  = if Ascii.eqb c "d" then Some true
    else if Ascii.eqb c "h" then Some false else None.
Proof.
  cbn [optstring_find].
  destruct (Ascii.eqb_spec c ":") as [-> | Hcolon]; [reflexivity |].
  cbn [negb andb].
  destruct (Ascii.eqb c "d"); [reflexivity |].
  destruct (Ascii.eqb c "h"); reflexivity.
Qed.

(** What one call of [getopt] can return when a new element is started:
    the end, an error, [h], or [d] with its argument, in which case the
    index has moved on and stays within [argv]. *)
Lemma getopt_progress argv st opt st' :
  nextchar st = "" -> getopt argv ":d:h" st = (opt, st') ->
  opt = -1 \/ opt = char_code "?" \/ opt = char_code ":"
  \/ opt = char_code "h"
  \/ (opt = char_code "d" /\ nextchar st' = ""
      /\ (optind st < optind st' <= List.length argv)%nat).
Proof.
  intros Hnext. unfold getopt. rewrite Hnext.
  destruct (nth_error argv (optind st)) as [element |] eqn:Hnth;
    [| intros [= <- <-]; now left].
  assert (Hin : (optind st < List.length argv)%nat)
    by (apply nth_error_Some; congruence).
  destruct element as [| dash [| c rest]]; try (intros [= <- <-]; now left).
  destruct (Ascii.eqb dash "-"); [| intros [= <- <-]; now left].
  change (String.eqb "" "") with true. cbn [andb].
  destruct (String.eqb (String c rest) "-"); [intros [= <- <-]; now left |].
  rewrite optstring_find_dh.
  destruct (Ascii.eqb_spec c "d") as [-> | Hd].
  - destruct rest as [| r rest].
    + destruct (nth_error argv (S (optind st))) as [a |] eqn:Hnext_arg.
      * assert (S (optind st) < List.length argv)%nat
          by (apply nth_error_Some; congruence).
        intros [= <- <-]. do 4 right. cbn. repeat split; lia.
      * intros [= <- <-]. right. right. now left.
    + intros [= <- <-]. do 4 right. cbn. repeat split; lia.
  - destruct (Ascii.eqb_spec c "h") as [-> | Hh].
    + intros [= <- <-]. right. right. right. now left.
    + intros [= <- <-]. right. now left.
Qed.

Lemma last_prepend_usage (e : effect) prog d :
  last (fst (prepend [e] (@usage timespec prog))) d = usage_line prog.
Proof. reflexivity. Qed.

(** The loop of [parse_args] with enough fuel: it returns having written
    nothing, or it exits with code 1 after writing to stderr only, the
    usage line last. *)
Lemma parse_args_loop_outcome fuel argv st refresh_interval :
  nextchar st = "" -> (List.length argv - optind st < fuel)%nat ->
  forallb is_stderr
    (fst (parse_args_loop fuel argv st refresh_interval)) = true
  /\ match snd (parse_args_loop fuel argv st refresh_interval) with
     | Ret _ => fst (parse_args_loop fuel argv st refresh_interval) = []
     | Exit code =>
         code = 1
         /\ last (fst (parse_args_loop fuel argv st refresh_interval))
              (Stdout "") = usage_line (nth 0 argv "")
     | OutOfFuel => False
     end.
Proof.
  revert st refresh_interval.
  induction fuel as [| fuel IH]; intros st refresh_interval Hnext Hfuel;
    [lia |].
  cbn [parse_args_loop].
  destruct (getopt argv ":d:h" st) as [opt st'] eqn:Hget.
  destruct (getopt_progress argv st opt st' Hnext Hget)
    as [-> | [-> | [-> | [-> | (-> & Hnext' & Hind)]]]].
  - cbn [Z.eqb].
    destruct (Nat.eqb (optind st') (List.length argv)); cbn; auto.
  - cbn. auto.
  - cbn. auto.
  - cbn. auto.
  - change (char_code "d" =? -1) with false.
    change (char_code "d" =? char_code "d") with true. cbv iota.
    destruct (parse_time_interval (optarg st') refresh_interval)
      as [status refresh_interval'].
    destruct (status =? 0).
    + apply IH; [assumption | lia].
    + cbn. auto.
Qed.

Lemma parse_args_d_separate prog v garbage :
  parse_args [prog; "-d"; v] garbage
  = if fst (parse_time_interval v default_interval) =? 0
    then ([], Ret (snd (parse_time_interval v default_interval)))
    else ([Stderr ("invalid value for option -d: " ++ v ++ String LF "");
           usage_line prog], Exit 1).
Proof.
  unfold parse_args. cbn [List.length parse_args_loop].
  change (getopt [prog; "-d"; v] ":d:h" (mk_getopt_state 1 "" "" 0))
    with (char_code "d", mk_getopt_state 3 "" v 0).
  cbv iota. change (char_code "d" =? -1) with false.
  change (char_code "d" =? char_code "d") with true. cbv iota.
  change (long_mul 100 NSEC_PER_MSEC) with 100000000.
  fold default_interval. cbn [optarg].
  destruct (parse_time_interval v default_interval) as [status r].
  cbn [fst snd]. destruct (status =? 0); reflexivity.
Qed.

End Options.

Section OptionForms.

Lemma char_string_code c : char_string (char_code c) = String c "".
Proof.
  unfold char_string, char_code. now rewrite N2Z.id, ascii_N_embedding.
Qed.

Lemma parse_args_d_attached prog c v garbage :
  parse_args [prog; "-d" ++ String c v] garbage
  = parse_args [prog; "-d"; String c v] garbage.
Proof.
  rewrite parse_args_d_separate.
  unfold parse_args. cbn [List.length parse_args_loop append].
  change (getopt [prog; String "-" (String "d" (String c v))] ":d:h"
            (mk_getopt_state 1 "" "" 0))
    with (char_code "d", mk_getopt_state 2 "" (String c v) 0).
  cbv iota. change (char_code "d" =? -1) with false.
  change (char_code "d" =? char_code "d") with true. cbv iota.
  change (long_mul 100 NSEC_PER_MSEC) with 100000000.
  fold default_interval. cbn [optarg].
  destruct (parse_time_interval (String c v) default_interval) as [status r].
  cbn [fst snd]. destruct (status =? 0); reflexivity.
Qed.

End OptionForms.

(** X7: the option [-d] with a value.  A value the parser accepts makes
    [parse_args] return the parsed interval without writing anything; any
    other value ends the process with status 1 after the two lines on
    stderr.  The value may be the next argument or, when it is not empty,
    be attached to the option. *)
Theorem parse_args_delay_option (prog v : string) (garbage : timespec) :
  v <> "" ->
  parse_args [prog; "-d"; v] garbage
  = (if fst (parse_time_interval v default_interval) =? 0
     then ([], Ret (snd (parse_time_interval v default_interval)))
     else ([Stderr ("invalid value for option -d: " ++ v ++ String LF "");
            usage_line prog], Exit 1))
  /\ parse_args [prog; "-d" ++ v] garbage = parse_args [prog; "-d"; v] garbage.
Proof.
  intros Hv. split; [apply parse_args_d_separate |].
  destruct v as [| c v]; [now contradiction Hv |].
  apply parse_args_d_attached.
Qed.

Lemma parse_args_delay_option_witness :
  "0.25" <> ""
  /\ parse_args ["stopwatch"; "-d0.25"] default_interval
     = ([], Ret (mk_timespec 0 250000000)).
Proof.
  assert (Hv : "0.25" <> "") by discriminate.
  split; [exact Hv |].
  destruct (parse_args_delay_option "stopwatch" "0.25" default_interval Hv)
    as [Hsep Hatt].
  exact (eq_trans Hatt Hsep).
Defined.

(** X8: of two [-d] options the later one decides, provided the earlier
    value is valid: the result is that of the later option alone. *)
Theorem parse_args_last_delay_wins (prog v1 v2 : string) (garbage : timespec) :
  fst (parse_time_interval v1 default_interval) = 0 ->
  parse_args [prog; "-d"; v1; "-d"; v2] garbage
  = parse_args [prog; "-d"; v2] garbage.
Proof.
  intros Hv1. rewrite parse_args_d_separate.
  unfold parse_args. cbn [List.length parse_args_loop].
  change (getopt [prog; "-d"; v1; "-d"; v2] ":d:h" (mk_getopt_state 1 "" "" 0))
    with (char_code "d", mk_getopt_state 3 "" v1 0).
  cbv iota. change (char_code "d" =? -1) with false.
  change (char_code "d" =? char_code "d") with true. cbv iota.
  change (long_mul 100 NSEC_PER_MSEC) with 100000000.
  fold default_interval. cbn [optarg].
  destruct (parse_time_interval v1 default_interval) as [status r1].
  cbn [fst] in Hv1. subst status. cbn [Z.eqb].
  change (getopt [prog; "-d"; v1; "-d"; v2] ":d:h" (mk_getopt_state 3 "" v1 0))
    with (char_code "d", mk_getopt_state 5 "" v2 0).
  cbv iota. change (char_code "d" =? -1) with false.
  change (char_code "d" =? char_code "d") with true. cbv iota. cbn [optarg].
  rewrite !parse_time_interval_cases.
  destruct (accepted v2); reflexivity.
Qed.

Lemma parse_args_last_delay_wins_witness :
  fst (parse_time_interval "5" default_interval) = 0
  /\ parse_args ["stopwatch"; "-d"; "5"; "-d"; "0.5"] default_interval
     = parse_args ["stopwatch"; "-d"; "0.5"] default_interval.
Proof.
  split; [reflexivity |].
  exact (parse_args_last_delay_wins "stopwatch" "5" "0.5" default_interval
           eq_refl).
Defined.


(** X10: the usage errors.  A first argument that is [-h] or an unknown
    option, whatever follows it, a lone [-d] without a value, and a lone
    argument that is not an option each end the process with status 1 and
    the matching message. *)
Theorem parse_args_usage_errors
  (prog : string) (rest : list string) (garbage : timespec)
  (c x : ascii) (a tail : string) :
  Ascii.eqb c "-" = false ->
  Ascii.eqb x "d" = false -> Ascii.eqb x "h" = false ->
  String x tail <> "-" ->
  parse_args (prog :: "-h" :: rest) garbage = ([usage_line prog], Exit 1)
  /\ parse_args (prog :: String "-" (String x tail) :: rest) garbage
     = ([Stderr ("unrecognized option -" ++ String x "" ++ String LF "");
         usage_line prog], Exit 1)
  /\ parse_args [prog; "-d"] garbage
     = ([Stderr ("option -d requires an argument" ++ String LF "");
         usage_line prog], Exit 1)
  /\ parse_args [prog; String c a] garbage
     = ([Stderr ("unexpected argument" ++ String LF ""); usage_line prog],
        Exit 1).
Proof.
  intros Hc Hd Hh Hdash.
  split; [reflexivity |]. split; [| split; [reflexivity |]].
  - unfold parse_args. cbn [List.length parse_args_loop].
    unfold getopt. cbn [nextchar optind nth_error].
    change (Ascii.eqb "-" "-") with true. cbv iota.
    change (String.eqb "" "") with true. cbn [andb].
    replace (String.eqb (String x tail) "-") with false
      by (symmetry; now apply String.eqb_neq).
    rewrite optstring_find_dh, Hd, Hh.
    change (char_code "?" =? -1) with false.
    change (char_code "?" =? char_code "d") with false.
    change (char_code "?" =? char_code "h") with false.
    change (char_code "?" =? char_code "?") with true. cbv iota.
    cbn [optopt]. rewrite char_string_code. reflexivity.
  - unfold parse_args. cbn [List.length parse_args_loop].
    unfold getopt. cbn [nextchar optind nth_error].
    destruct a as [| a0 a]; [reflexivity |]. rewrite Hc. reflexivity.
Qed.

Lemma parse_args_usage_errors_witness :
  (Ascii.eqb "f" "-" = false /\ Ascii.eqb "x" "d" = false
   /\ Ascii.eqb "x" "h" = false /\ String "x" "" <> "-")
  /\ parse_args ["stopwatch"; "file"] default_interval
     = ([Stderr ("unexpected argument" ++ String LF "");
         usage_line "stopwatch"], Exit 1)
  /\ parse_args ["stopwatch"; "-x"; "-d"; "1"] default_interval
     = ([Stderr ("unrecognized option -x" ++ String LF "");
         usage_line "stopwatch"], Exit 1).
Proof.
  assert (Hdash : String "x" "" <> "-") by discriminate.
  split; [repeat split; solve [reflexivity | exact Hdash] |].
  destruct (parse_args_usage_errors "stopwatch" ["-d"; "1"] default_interval
              "f" "x" "ile" "" eq_refl eq_refl eq_refl Hdash)
    as (_ & Hunknown & _ & Hpositional).
  split; [exact Hpositional | exact Hunknown].
Defined.

(* ================================================================== *)
(** ** The rendered text *)

Section RenderedText.

Lemma string_length_app a b :
  String.length (a ++ b) = (String.length a + String.length b)%nat.
Proof. induction a as [|c a IH]; [reflexivity | simpl; now rewrite IH]. Qed.

(** With enough fuel the digits of a positive number start with a digit
    that counts: [n] is at least the power of ten of their number less
    one. *)
Lemma utoa_leading fuel :
  forall n acc,
    1 <= n < 2 ^ Z.of_nat (S fuel) ->
    exists p, utoa (S fuel) n acc = p ++ acc
              /\ 1 <= strlen p /\ 10 ^ (strlen p - 1) <= n.
Proof.
  induction fuel as [|fuel IH]; intros n acc Hn.
  - change (2 ^ Z.of_nat 1) with 2 in Hn.
    exists (String (digit_char n) "").
    rewrite utoa_S, Z.div_small, Z.mod_small by lia.
    cbn [Z.eqb append]. unfold strlen. cbn. repeat split; lia.
  - rewrite utoa_S. destruct (n / 10 =? 0) eqn:Hq.
    + exists (String (digit_char (n mod 10)) "").
      cbn [append]. unfold strlen. cbn. repeat split; lia.
    + apply Z.eqb_neq in Hq.
      assert (Hpos : 0 <= n / 10) by (apply Z.div_pos; lia).
      assert (Hsmall : 1 <= n / 10 < 2 ^ Z.of_nat (S fuel)).
      { rewrite (Nat2Z.inj_succ (S fuel)), Z.pow_succ_r in Hn by lia.
        split; [lia |]. apply Z.div_lt_upper_bound; lia. }
      destruct (IH (n / 10) (String (digit_char (n mod 10)) acc) Hsmall)
        as (p & Hp & Hlen & Hlow).
      exists (p ++ String (digit_char (n mod 10)) "").
      rewrite Hp, append_assoc. split; [reflexivity |].
      rewrite strlen_app, strlen_cons. unfold strlen at 2 4. cbn [String.length Z.of_nat].
      split; [lia |].
      replace (strlen p + (0 + 1) - 1) with (Z.succ (strlen p - 1)) by lia.
      rewrite Z.pow_succ_r by lia.
      pose proof (Z.div_mod n 10 ltac:(lia)).
      pose proof (Z.mod_pos_bound n 10 eq_refl). lia.
Qed.

(** The number of digits [decimal] writes. *)
Lemma decimal_length n :
  0 <= n ->
  1 <= strlen (decimal n)
  /\ n < 10 ^ strlen (decimal n)
  /\ (1 <= n -> 10 ^ (strlen (decimal n) - 1) <= n).
Proof.
  intros Hn.
  destruct (Z.eq_dec n 0) as [-> | Hnz];
    [change (decimal 0) with "0"; unfold strlen; cbn; repeat split; lia |].
  destruct (decimal_digits n Hn) as [Hall Hval].
  pose proof (dec_value_from_upper 0 (decimal n) Hall (Z.le_refl 0)) as Hup.
  fold (dec_value (decimal n)) in Hup. rewrite Hval in Hup.
  assert (Hfuel : 1 <= n < 2 ^ Z.of_nat (S (Z.to_nat (Z.log2 n)))).
  { split; [lia |].
    rewrite Nat2Z.inj_succ, Z2Nat.id by apply Z.log2_nonneg.
    apply Z.log2_spec. lia. }
  destruct (utoa_leading _ n "" Hfuel) as (p & Hp & Hlen & Hlow).
  rewrite append_empty_r in Hp. unfold decimal in *. rewrite Hp in *.
  repeat split; try assumption; lia.
Qed.

Lemma decimal_length_mono n m :
  0 <= n <= m -> strlen (decimal n) <= strlen (decimal m).
Proof.
  intros Hnm.
  destruct (decimal_length n ltac:(lia)) as (Hn1 & _ & Hnlow).
  destruct (decimal_length m ltac:(lia)) as (Hm1 & Hmup & _).
  destruct (Z.eq_dec n 0) as [-> | Hnz]; [cbn in *; lia |].
  specialize (Hnlow ltac:(lia)).
  assert (Hlt : 10 ^ (strlen (decimal n) - 1) < 10 ^ strlen (decimal m)) by lia.
  apply Z.pow_lt_mono_r_iff in Hlt; lia.
Qed.

(** Within the bounds of C7 the text of the fields is the rendering. *)
Lemma hms_text_render ts :
  0 <= tv_sec ts < 3600 * 2 ^ 31 -> 0 <= tv_nsec ts < 1000000000 ->
  hms_text (hms_fields ts) = render_hms ts.
Proof.
  intros Hsec Hnsec.
  assert (Hh : 0 <= tv_sec ts / 3600) by (apply Z.div_pos; lia).
  assert (Hms : 0 <= tv_nsec ts / 1000000 < 1000)
    by (split; [apply Z.div_pos | apply Z.div_lt_upper_bound]; lia).
  pose proof (Z.mod_pos_bound (tv_sec ts) 60 eq_refl) as Hs.
  pose proof (Z.mod_pos_bound (tv_sec ts / 60) 60 eq_refl) as Hm.
  rewrite hms_fields_exact by assumption. unfold hms_text, render_hms.
  now rewrite format_d_plain, !format_d_02, format_d_03 by lia.
Qed.

Lemma render_hms_length ts :
  String.length (render_hms ts)
  = (String.length (decimal (tv_sec ts / 3600)) + 10)%nat.
Proof. unfold render_hms. rewrite string_length_app. reflexivity. Qed.

End RenderedText.

(** X11: the line the terminal output overwrites never gets shorter.  For
    two non-negative times below 2^31 hours, the later one is rendered on
    at least as many characters as the earlier one, and each takes the
    digits of its hours plus the eleven characters that follow them. *)
Theorem tty_output_width_grows (ts1 ts2 : timespec) :
  0 <= tv_sec ts1 <= tv_sec ts2 -> tv_sec ts2 < 3600 * 2 ^ 31 ->
  0 <= tv_nsec ts1 < 1000000000 -> 0 <= tv_nsec ts2 < 1000000000 ->
  (String.length (tty_output_update ts1)
   <= String.length (tty_output_update ts2))%nat
  /\ String.length (tty_output_update ts1)
     = (String.length (decimal (tv_sec ts1 / 3600)) + 11)%nat.
Proof.
  intros Hsec Hmax Hnsec1 Hnsec2.
  rewrite !tty_output_update_text, !hms_text_render by lia.
  rewrite !string_length_app, !render_hms_length. cbn [String.length].
  assert (Hdiv : 0 <= tv_sec ts1 / 3600 <= tv_sec ts2 / 3600)
    by (split; [apply Z.div_pos | apply Z.div_le_mono]; lia).
  pose proof (decimal_length_mono _ _ Hdiv) as Hmono.
  unfold strlen in Hmono. lia.
Qed.

Lemma tty_output_width_grows_witness :
  (0 <= tv_sec (mk_timespec 35999 999999999)
      <= tv_sec (mk_timespec 36000 0)
   /\ tv_sec (mk_timespec 36000 0) < 3600 * 2 ^ 31
   /\ 0 <= tv_nsec (mk_timespec 35999 999999999) < 1000000000
   /\ 0 <= tv_nsec (mk_timespec 36000 0) < 1000000000)
  /\ (String.length (tty_output_update (mk_timespec 35999 999999999))
      <= String.length (tty_output_update (mk_timespec 36000 0)))%nat.
Proof.
  assert (H1 : 0 <= tv_sec (mk_timespec 35999 999999999)
               <= tv_sec (mk_timespec 36000 0)) by (cbn; lia).
  assert (H2 : tv_sec (mk_timespec 36000 0) < 3600 * 2 ^ 31) by (cbn; lia).
  assert (H3 : 0 <= tv_nsec (mk_timespec 35999 999999999) < 1000000000)
    by (cbn; lia).
  assert (H4 : 0 <= tv_nsec (mk_timespec 36000 0) < 1000000000) by (cbn; lia).
  split; [repeat split; solve [apply H1 | apply H2 | apply H3 | apply H4] |].
  exact (proj1 (tty_output_width_grows _ _ H1 H2 H3 H4)).
Defined.

Section RenderedTextUnique.

Lemma digit_char_inj a b :
  0 <= a <= 9 -> 0 <= b <= 9 -> digit_char a = digit_char b -> a = b.
Proof.
  intros Ha Hb Heq.
  pose proof (digit_char_code a Ha) as Hca.
  pose proof (digit_char_code b Hb) as Hcb.
  rewrite Heq in Hca. lia.
Qed.

Lemma two_digits_inj n m :
  0 <= n < 100 -> 0 <= m < 100 -> two_digits n = two_digits m -> n = m.
Proof.
  intros Hn Hm Heq. unfold two_digits in Heq.
  injection Heq as H1 H0.
  pose proof (Z.div_mod n 10 ltac:(lia)).
  pose proof (Z.div_mod m 10 ltac:(lia)).
  pose proof (Z.mod_pos_bound n 10 eq_refl).
  pose proof (Z.mod_pos_bound m 10 eq_refl).
  apply digit_char_inj in H1; [| lia ..].
  apply digit_char_inj in H0; lia.
Qed.

Lemma three_digits_inj n m :
  0 <= n < 1000 -> 0 <= m < 1000 -> three_digits n = three_digits m -> n = m.
Proof.
  intros Hn Hm Heq. unfold three_digits in Heq.
  assert (H2 : digit_char (n / 100) = digit_char (m / 100)) by congruence.
  assert (Hrest : two_digits (n mod 100) = two_digits (m mod 100))
    by congruence.
  pose proof (Z.div_mod n 100 ltac:(lia)).
  pose proof (Z.div_mod m 100 ltac:(lia)).
  pose proof (Z.mod_pos_bound n 100 eq_refl).
  pose proof (Z.mod_pos_bound m 100 eq_refl).
  apply two_digits_inj in Hrest; [| lia ..].
  apply digit_char_inj in H2; lia.
Qed.

(** Digits followed by a character that is not a digit split in one way
    only. *)
Lemma digits_prefix_unique a b c x y :
  all_digits a = true -> all_digits b = true ->
  isdigit (char_code c) = false ->
  a ++ String c x = b ++ String c y -> a = b /\ x = y.
Proof.
  intros Ha Hb Hc. revert b Hb.
  induction a as [| d a IH]; intros [| e b] Hb Heq; cbn [append] in Heq.
  - injection Heq as ->. now split.
  - injection Heq as -> _. cbn [all_digits] in Hb.
    rewrite Hc in Hb. discriminate.
  - injection Heq as -> _. cbn [all_digits] in Ha.
    rewrite Hc in Ha. discriminate.
  - injection Heq as -> Heq.
    cbn [all_digits] in Ha, Hb.
    apply andb_true_iff in Ha. apply andb_true_iff in Hb.
    destruct (IH (proj2 Ha) b (proj2 Hb) Heq) as [-> ->]. now split.
Qed.

(** The rendering determines the whole seconds and the milliseconds. *)
Lemma render_hms_inj ts1 ts2 :
  0 <= tv_sec ts1 -> 0 <= tv_sec ts2 ->
  0 <= tv_nsec ts1 < 1000000000 -> 0 <= tv_nsec ts2 < 1000000000 ->
  render_hms ts1 = render_hms ts2 ->
  tv_sec ts1 = tv_sec ts2
  /\ tv_nsec ts1 / 1000000 = tv_nsec ts2 / 1000000.
Proof.
  intros Hs1 Hs2 Hn1 Hn2 Heq. unfold render_hms in Heq.
  assert (Hh1 : 0 <= tv_sec ts1 / 3600) by (apply Z.div_pos; lia).
  assert (Hh2 : 0 <= tv_sec ts2 / 3600) by (apply Z.div_pos; lia).
  destruct (decimal_digits _ Hh1) as [Hall1 Hval1].
  destruct (decimal_digits _ Hh2) as [Hall2 Hval2].
  cbn [append] in Heq.
  apply digits_prefix_unique in Heq; [| assumption | assumption | reflexivity].
  destruct Heq as [Hdec Htail].
  assert (Hh : tv_sec ts1 / 3600 = tv_sec ts2 / 3600)
    by (rewrite <- Hval1, <- Hval2, Hdec; reflexivity).
  unfold two_digits in Htail. cbn [append] in Htail.
  injection Htail as Hm1 Hm0 Hs1' Hs0' Hms2 Hms1 Hms0.
  pose proof (Z.mod_pos_bound (tv_sec ts1) 60 eq_refl).
  pose proof (Z.mod_pos_bound (tv_sec ts2) 60 eq_refl).
  pose proof (Z.mod_pos_bound (tv_sec ts1 / 60) 60 eq_refl).
  pose proof (Z.mod_pos_bound (tv_sec ts2 / 60) 60 eq_refl).
  assert (Hm : tv_sec ts1 / 60 mod 60 = tv_sec ts2 / 60 mod 60).
  { apply two_digits_inj; [lia | lia |]. unfold two_digits. congruence. }
  assert (Hs : tv_sec ts1 mod 60 = tv_sec ts2 mod 60).
  { apply two_digits_inj; [lia | lia |]. unfold two_digits. congruence. }
  assert (Hms' : tv_nsec ts1 / 1000000 = tv_nsec ts2 / 1000000).
  { apply three_digits_inj;
      [split; [apply Z.div_pos | apply Z.div_lt_upper_bound]; lia ..
      | unfold three_digits, two_digits; congruence]. }
  split; [| assumption].
  pose proof (Z.div_mod (tv_sec ts1) 60 ltac:(lia)).
  pose proof (Z.div_mod (tv_sec ts2) 60 ltac:(lia)).
  pose proof (Z.div_mod (tv_sec ts1 / 60) 60 ltac:(lia)).
  pose proof (Z.div_mod (tv_sec ts2 / 60) 60 ltac:(lia)).
  assert (Hd1 : tv_sec ts1 / 60 / 60 = tv_sec ts1 / 3600)
    by (rewrite Z.div_div by lia; reflexivity).
  assert (Hd2 : tv_sec ts2 / 60 / 60 = tv_sec ts2 / 3600)
    by (rewrite Z.div_div by lia; reflexivity).
  lia.
Qed.

End RenderedTextUnique.

(** X12: the text tells the time apart to the millisecond.  For two
    non-negative times below 2^31 hours both formatters write the same
    text exactly when the seconds are the same and the nanoseconds fall in
    the same millisecond. *)
Theorem output_update_text_unique (ts1 ts2 : timespec) :
  0 <= tv_sec ts1 < 3600 * 2 ^ 31 -> 0 <= tv_sec ts2 < 3600 * 2 ^ 31 ->
  0 <= tv_nsec ts1 < 1000000000 -> 0 <= tv_nsec ts2 < 1000000000 ->
  (tty_output_update ts1 = tty_output_update ts2
   <-> tv_sec ts1 = tv_sec ts2
       /\ tv_nsec ts1 / 1000000 = tv_nsec ts2 / 1000000)
  /\ (notty_output_update ts1 = notty_output_update ts2
      <-> tv_sec ts1 = tv_sec ts2
          /\ tv_nsec ts1 / 1000000 = tv_nsec ts2 / 1000000).
Proof.
  intros Hs1 Hs2 Hn1 Hn2.
  rewrite !tty_output_update_text, !notty_output_update_text.
  rewrite !hms_text_render by assumption.
  assert (Hback : tv_sec ts1 = tv_sec ts2
                  /\ tv_nsec ts1 / 1000000 = tv_nsec ts2 / 1000000 ->
                  render_hms ts1 = render_hms ts2).
  { intros [Hsec Hms]. unfold render_hms. now rewrite Hsec, Hms. }
  split; split.
  - intros Heq. apply (f_equal but_last) in Heq.
    rewrite !but_last_app in Heq. apply render_hms_inj; lia || assumption.
  - intros H. now rewrite (Hback H).
  - intros Heq. apply (f_equal but_last) in Heq.
    rewrite !but_last_app in Heq. apply render_hms_inj; lia || assumption.
  - intros H. now rewrite (Hback H).
Qed.

Lemma output_update_text_unique_witness :
  (0 <= tv_sec (mk_timespec 61 5000000) < 3600 * 2 ^ 31
   /\ 0 <= tv_sec (mk_timespec 61 5999999) < 3600 * 2 ^ 31
   /\ 0 <= tv_nsec (mk_timespec 61 5000000) < 1000000000
   /\ 0 <= tv_nsec (mk_timespec 61 5999999) < 1000000000)
  /\ tty_output_update (mk_timespec 61 5000000)
     = tty_output_update (mk_timespec 61 5999999).
Proof.
  assert (H1 : 0 <= tv_sec (mk_timespec 61 5000000) < 3600 * 2 ^ 31)
    by (cbn; lia).
  assert (H2 : 0 <= tv_sec (mk_timespec 61 5999999) < 3600 * 2 ^ 31)
    by (cbn; lia).
  assert (H3 : 0 <= tv_nsec (mk_timespec 61 5000000) < 1000000000)
    by (cbn; lia).
  assert (H4 : 0 <= tv_nsec (mk_timespec 61 5999999) < 1000000000)
    by (cbn; lia).
  split; [repeat split; solve [apply H1 | apply H2 | apply H3 | apply H4] |].
  apply (proj1 (output_update_text_unique _ _ H1 H2 H3 H4)).
  split; reflexivity.
Defined.

(* ================================================================== *)
(** ** Runs of the display loop and of [main] *)

Section Runs.

Variable output : output.

Lemma display_loop_failure ticks curr_signal fail_time rest :
  curr_signal <> SIGINT -> Forall is_tick ticks ->
  display_loop output curr_signal (ticks ++ (-1, fail_time) :: rest)%list
  = ((samples output ticks
      ++ [Stderr ("error calling sigwaitinfo" ++ String LF "")])%list,
     Returned (-1)).
Proof.
  intros Hrun Hticks. revert curr_signal Hrun.
  induction Hticks as [| [signal curr_time] ticks [Herr Hint] _ IH];
    intros curr_signal Hrun.
  - cbn [app samples map]. now rewrite display_loop_running by assumption.
  - cbn [app samples map]. cbn [fst] in Herr, Hint.
    rewrite display_loop_running by assumption.
    replace (signal =? -1) with false by (symmetry; now apply Z.eqb_neq).
    now rewrite IH by assumption.
Qed.

Lemma display_loop_waiting ticks curr_signal :
  curr_signal <> SIGINT -> Forall is_tick ticks ->
  display_loop output curr_signal ticks = (samples output ticks, Blocked).
Proof.
  intros Hrun Hticks. revert curr_signal Hrun.
  induction Hticks as [| [signal curr_time] ticks [Herr Hint] _ IH];
    intros curr_signal Hrun.
  - cbn [display_loop samples map].
    now replace (curr_signal =? SIGINT) with false
      by (symmetry; now apply Z.eqb_neq).
  - cbn [samples map]. cbn [fst] in Herr, Hint.
    rewrite display_loop_running by assumption.
    replace (signal =? -1) with false by (symmetry; now apply Z.eqb_neq).
    now rewrite IH by assumption.
Qed.

Lemma display_loop_status curr_signal deliveries :
  curr_signal <> SIGINT ->
  snd (display_loop output curr_signal deliveries)
  = match first_stop deliveries with
    | None => Blocked
    | Some signal => if signal =? SIGINT then Returned 0 else Returned (-1)
    end.
Proof.
  revert curr_signal.
  induction deliveries as [| [signal curr_time] rest IH];
    intros curr_signal Hrun.
  - cbn [display_loop first_stop].
    now replace (curr_signal =? SIGINT) with false
      by (symmetry; now apply Z.eqb_neq).
  - rewrite display_loop_running by assumption. cbn [first_stop].
    destruct (Z.eqb_spec signal (-1)) as [-> | Herr]; [reflexivity |].
    cbn [orb prepend snd].
    destruct (Z.eqb_spec signal SIGINT) as [-> | Hint].
    + now rewrite display_loop_stopped.
    + now apply IH.
Qed.

Lemma no_stdout_in_stderr es :
  forallb is_stderr es = true -> existsb is_stdout es = false.
Proof.
  induction es as [| e es IH]; [reflexivity |].
  cbn [forallb existsb]. intros H. apply andb_true_iff in H.
  destruct H as [He Hes]. rewrite (IH Hes).
  destruct e; try discriminate; reflexivity.
Qed.

End Runs.

(** X13: the three shapes of a run of the display loop.  After any number
    of ticks, SIGINT gives one sample per delivery, its own included, then
    the newline and status 0, and nothing delivered later is read; a failed
    sigwaitinfo gives the samples of the ticks, then the error line and
    status -1; and ticks alone leave the loop waiting. *)
Theorem display_loop_runs
  (output : output) (curr_signal : Z) (ticks rest : list (Z * timespec))
  (last_time : timespec) :
  curr_signal <> SIGINT -> Forall is_tick ticks ->
  display_loop output curr_signal (ticks ++ (SIGINT, last_time) :: rest)%list
  = ((samples output ticks
      ++ [Stdout (update output last_time); Stdout (String LF "")])%list,
     Returned 0)
  /\ display_loop output curr_signal (ticks ++ (-1, last_time) :: rest)%list
     = ((samples output ticks
         ++ [Stderr ("error calling sigwaitinfo" ++ String LF "")])%list,
        Returned (-1))
  /\ display_loop output curr_signal ticks = (samples output ticks, Blocked).
Proof.
  intros Hrun Hticks. split; [| split].
  - now apply display_loop_run.
  - now apply display_loop_failure.
  - now apply display_loop_waiting.
Qed.

Lemma display_loop_runs_witness :
  (0 <> SIGINT
   /\ Forall is_tick [(34, mk_timespec 0 100000000);
                      (34, mk_timespec 0 200000000)])
  /\ display_loop notty_output 0
       [(34, mk_timespec 0 100000000); (34, mk_timespec 0 200000000);
        (SIGINT, mk_timespec 0 250000000); (34, mk_timespec 0 300000000)]
     = ([Stdout (notty_output_update (mk_timespec 0 100000000));
         Stdout (notty_output_update (mk_timespec 0 200000000));
         Stdout (notty_output_update (mk_timespec 0 250000000));
         Stdout (String LF "")], Returned 0).
Proof.
  assert (Hrun : 0 <> SIGINT) by discriminate.
  assert (Hticks : Forall is_tick [(34, mk_timespec 0 100000000);
                                   (34, mk_timespec 0 200000000)])
    by (repeat constructor; discriminate).
  split; [split; assumption |].
  exact (proj1 (display_loop_runs notty_output 0 _
                  [(34, mk_timespec 0 300000000)] (mk_timespec 0 250000000)
                  Hrun Hticks)).
Defined.

(** X14: how the loop ends is decided by the first delivery that is not a
    tick: status 0 when it is SIGINT, status -1 when it is a failed
    sigwaitinfo, and no return at all while there is none. *)
Theorem display_loop_exit_status
  (output : output) (curr_signal : Z) (deliveries : list (Z * timespec)) :
  curr_signal <> SIGINT ->
  snd (display_loop output curr_signal deliveries)
  = match first_stop deliveries with
    | None => Blocked
    | Some signal => if signal =? SIGINT then Returned 0 else Returned (-1)
    end.
Proof. apply display_loop_status. Qed.

Lemma display_loop_exit_status_witness :
  0 <> SIGINT
  /\ snd (display_loop tty_output 0
            [(34, mk_timespec 1 0); (-1, mk_timespec 2 0);
             (SIGINT, mk_timespec 3 0)])
     = Returned (-1).
Proof.
  assert (Hrun : 0 <> SIGINT) by discriminate.
  split; [exact Hrun |].
  exact (display_loop_exit_status tty_output 0
           [(34, mk_timespec 1 0); (-1, mk_timespec 2 0);
            (SIGINT, mk_timespec 3 0)] Hrun).
Defined.

(** X15: a whole run.  With [-d] and a valid value, a working stopwatch
    and timer, some ticks and then SIGINT, [main] sets the buffering,
    blocks the two signals, arms the timer with the parsed interval for
    both the first expiry and the period, writes one sample per delivery
    with the formatter chosen by isatty, then the newline, and returns
    0. *)
Theorem main_run_with_delay
  (prog v : string) (garbage : timespec) (tty : bool) (sigrtmin : Z)
  (ticks rest : list (Z * timespec)) (stop_time : timespec) :
  fst (parse_time_interval v default_interval) = 0 ->
  Forall is_tick ticks ->
  main (mk_world tty sigrtmin 0 0 0
          (ticks ++ (SIGINT, stop_time) :: rest)%list)
    [prog; "-d"; v] garbage
  = let output := if tty then tty_output else notty_output in
    let interval := snd (parse_time_interval v default_interval) in
    (([init output; Sigprocmask_block [SIGINT; sigrtmin];
       Timer_settime interval interval]
      ++ samples output ticks
      ++ [Stdout (update output stop_time); Stdout (String LF "")])%list,
     Returned 0).
Proof.
  intros Hv Hticks. unfold main.
  rewrite parse_args_d_separate, Hv. cbn [Z.eqb].
  cbn [isatty_stdout stopwatch_init_result timer_create_result
       timer_settime_result deliveries SIGRTMIN Z.eqb negb].
  rewrite display_loop_run by (assumption || discriminate).
  destruct tty; reflexivity.
Qed.

Lemma main_run_with_delay_witness :
  (fst (parse_time_interval "0.5" default_interval) = 0
   /\ Forall is_tick [(34, mk_timespec 0 500000000)])
  /\ main (mk_world false 34 0 0 0
             [(34, mk_timespec 0 500000000); (SIGINT, mk_timespec 0 700000000)])
       ["stopwatch"; "-d"; "0.5"] default_interval
     = ([Setvbuf IOLBF; Sigprocmask_block [SIGINT; 34];
         Timer_settime (mk_timespec 0 500000000) (mk_timespec 0 500000000);
         Stdout (notty_output_update (mk_timespec 0 500000000));
         Stdout (notty_output_update (mk_timespec 0 700000000));
         Stdout (String LF "")], Returned 0).
Proof.
  assert (Hticks : Forall is_tick [(34, mk_timespec 0 500000000)])
    by (repeat constructor; discriminate).
  split; [split; [reflexivity | exact Hticks] |].
  exact (main_run_with_delay "stopwatch" "0.5" default_interval false 34
           [(34, mk_timespec 0 500000000)] [] (mk_timespec 0 700000000)
           eq_refl Hticks).
Defined.

(** X16: nothing reaches stdout unless the start succeeded.  If a run of
    [main] writes to stdout, then the options were accepted, the stopwatch
    was initialised, the timer was created and armed with the interval
    from the options, and what follows is the display loop. *)
Theorem main_stdout_needs_startup
  (w : world) (argv : list string) (garbage : timespec) :
  existsb is_stdout (fst (main w argv garbage)) = true ->
  exists refresh_interval,
    parse_args argv garbage = ([], Ret refresh_interval)
    /\ stopwatch_init_result w = 0
    /\ timer_create_result w <> -1
    /\ timer_settime_result w <> -1
    /\ main w argv garbage
       = let output := if isatty_stdout w then tty_output else notty_output in
         prepend [init output; Sigprocmask_block [SIGINT; SIGRTMIN w];
                  Timer_settime refresh_interval refresh_interval]
           (display_loop output 0 (deliveries w)).
Proof.
  unfold main.
  pose proof (parse_args_loop_outcome (S (List.length argv)) argv
                (mk_getopt_state 1 "" "" 0)
                {| tv_sec := 0; tv_nsec := long_mul 100 NSEC_PER_MSEC |}
                eq_refl ltac:(cbn [optind]; lia)) as [Herr Hout].
  fold (parse_args argv garbage) in Herr, Hout.
  destruct (parse_args argv garbage) as [es [r | code |]];
    cbn [fst snd] in Herr, Hout.
  - subst es.
    destruct (Z.eqb_spec (stopwatch_init_result w) 0) as [Hinit | Hinit];
      cbn [negb];
      [| destruct (isatty_stdout w); cbn; discriminate].
    destruct (Z.eqb_spec (timer_create_result w) (-1)) as [Hcreate | Hcreate];
      [destruct (isatty_stdout w); cbn; discriminate |].
    destruct (Z.eqb_spec (timer_settime_result w) (-1)) as [Hset | Hset];
      [destruct (isatty_stdout w); cbn; discriminate |].
    intros _. exists r. repeat split; try assumption.
  - cbn [prepend fst snd app existsb].
    rewrite (no_stdout_in_stderr es Herr).
    destruct (isatty_stdout w); cbn; discriminate.
  - contradiction.
Qed.

Lemma main_stdout_needs_startup_witness :
  existsb is_stdout
    (fst (main (mk_world true 34 0 0 0 [(34, mk_timespec 0 100000000)])
            ["stopwatch"] default_interval)) = true
  /\ exists refresh_interval,
       parse_args ["stopwatch"] default_interval = ([], Ret refresh_interval).
Proof.
  assert (H : existsb is_stdout
                (fst (main (mk_world true 34 0 0 0
                              [(34, mk_timespec 0 100000000)])
                        ["stopwatch"] default_interval)) = true)
    by reflexivity.
  split; [exact H |].
  destruct (main_stdout_needs_startup _ _ _ H) as (r & Hparse & _).
  exists r. exact Hparse.
Defined.

(* ================================================================== *)
(** ** Further error and round-trip properties *)

(** X17: a stray character is an error.  A character that is neither a
    digit, nor a point, nor NUL, met right after the integer digits (also
    as first character) makes the parser fail, whatever follows; so does a
    character that is neither a digit nor NUL met after the point and
    fewer than nine fractional digits, a second point included. *)
Theorem parse_time_interval_stray_character
  (result : timespec) (ds fs rest : string) (c : ascii) :
  all_digits ds = true -> all_digits fs = true ->
  (String.length fs <= 8)%nat ->
  isdigit (char_code c) = false -> char_code c <> CHAR_NUL ->
  (char_code c <> CHAR_DOT ->
   parse_time_interval (ds ++ String c rest) result = (-1, result))
  /\ parse_time_interval (ds ++ "." ++ fs ++ String c rest) result
     = (-1, result).
Proof.
  intros Hds Hfs Hlen Hc Hnul. split.
  - intros Hdot.
    rewrite parse_time_interval_split by assumption.
    cbn [peek]. cbv zeta.
    replace (char_code c =? CHAR_DOT) with false
      by (symmetry; now apply Z.eqb_neq).
    now replace (char_code c =? CHAR_NUL) with false
      by (symmetry; now apply Z.eqb_neq).
  - rewrite parse_time_interval_split by (assumption || reflexivity).
    cbn [peek advance append]. change (char_code ".") with CHAR_DOT.
    rewrite Z.eqb_refl. cbv zeta.
    change NSEC_PER_DECISEC with (10 ^ (9 - 1)).
    rewrite parse_fractional_part_short;
      [ | assumption | assumption | lia | unfold strlen; lia | lia
        | cbn; lia].
    cbn [peek].
    now replace (char_code c =? CHAR_NUL) with false
      by (symmetry; now apply Z.eqb_neq).
Qed.

Lemma parse_time_interval_stray_character_witness :
  (all_digits "12" = true /\ all_digits "5" = true
   /\ (String.length "5" <= 8)%nat
   /\ isdigit (char_code "s") = false /\ char_code "s" <> CHAR_NUL)
  /\ parse_time_interval "12.5s" default_interval = (-1, default_interval).
Proof.
  assert (Hlen : (String.length "5" <= 8)%nat) by (simpl; lia).
  assert (Hnul : char_code "s" <> CHAR_NUL) by discriminate.
  split; [repeat split; solve [reflexivity | exact Hlen | exact Hnul] |].
  exact (proj2 (parse_time_interval_stray_character default_interval
                  "12" "5" "" "s" eq_refl eq_refl Hlen eq_refl Hnul)).
Defined.

(** X18: the fields are the parts the time is made of.  A time of [h]
    hours, [m] minutes, [s] seconds, [ms] milliseconds and a remainder
    below one millisecond, with [h] below 2^31 and the others within their
    units, is decomposed into exactly [(h, m, s, ms)]. *)
Theorem hms_fields_of_parts (h m s ms r : Z) :
  0 <= h < 2 ^ 31 -> 0 <= m < 60 -> 0 <= s < 60 ->
  0 <= ms < 1000 -> 0 <= r < 1000000 ->
  hms_fields (mk_timespec (3600 * h + 60 * m + s) (1000000 * ms + r))
  = (h, m, s, ms).
Proof.
  change (2 ^ 31) with 2147483648. intros Hh Hm Hs Hms Hr.
  rewrite hms_fields_exact
    by (cbn [tv_sec tv_nsec]; change (3600 * 2 ^ 31) with 7730941132800; lia).
  cbn [tv_sec tv_nsec].
  assert (H1 : (3600 * h + 60 * m + s) / 3600 = h)
    by (symmetry; apply (Z.div_unique _ _ _ (60 * m + s)); lia).
  assert (H2 : (3600 * h + 60 * m + s) / 60 = 60 * h + m)
    by (symmetry; apply (Z.div_unique _ _ _ s); lia).
  assert (H3 : (60 * h + m) mod 60 = m)
    by (symmetry; apply (Z.mod_unique _ _ h); lia).
  assert (H4 : (3600 * h + 60 * m + s) mod 60 = s)
    by (symmetry; apply (Z.mod_unique _ _ (60 * h + m)); lia).
  assert (H5 : (1000000 * ms + r) / 1000000 = ms)
    by (symmetry; apply (Z.div_unique _ _ _ r); lia).
  now rewrite H1, H2, H3, H4, H5.
Qed.

Lemma hms_fields_of_parts_witness :
  (0 <= 25 < 2 ^ 31 /\ 0 <= 59 < 60 /\ 0 <= 59 < 60
   /\ 0 <= 999 < 1000 /\ 0 <= 999999 < 1000000)
  /\ hms_fields (mk_timespec 93599 999999999) = (25, 59, 59, 999).
Proof.
  assert (Hh : 0 <= 25 < 2 ^ 31) by (cbn; lia).
  assert (Hm : 0 <= 59 < 60) by lia.
  assert (Hms : 0 <= 999 < 1000) by lia.
  assert (Hr : 0 <= 999999 < 1000000) by lia.
  split; [repeat split; solve [apply Hh | apply Hm | apply Hms | apply Hr] |].
  exact (hms_fields_of_parts 25 59 59 999 999999 Hh Hm Hm Hms Hr).
Defined.

(** X19: a usage error ends [main] at once.  When [parse_args] ends the
    process, [main] has only set the buffering of stdout and written the
    lines on stderr; the status is 1, no signal is blocked, no timer is
    armed and nothing is written to stdout. *)
Theorem main_exits_on_usage_error
  (w : world) (argv : list string) (garbage : timespec) (code : Z) :
  snd (parse_args argv garbage) = Exit code ->
  main w argv garbage
  = (init (if isatty_stdout w then tty_output else notty_output)
       :: fst (parse_args argv garbage), Exited 1)
  /\ forallb is_stderr (fst (parse_args argv garbage)) = true.
Proof.
  intros Hexit.
  pose proof (parse_args_loop_outcome (S (List.length argv)) argv
                (mk_getopt_state 1 "" "" 0)
                {| tv_sec := 0; tv_nsec := long_mul 100 NSEC_PER_MSEC |}
                eq_refl ltac:(cbn [optind]; lia)) as [Herr Hout].
  fold (parse_args argv garbage) in Herr, Hout.
  unfold main.
  destruct (parse_args argv garbage) as [es r]. cbn [fst snd] in *.
  subst r. destruct Hout as [-> _]. split; [reflexivity | assumption].
Qed.

Lemma main_exits_on_usage_error_witness :
  snd (parse_args ["stopwatch"; "-d"; "fast"] default_interval) = Exit 1
  /\ main (mk_world true 34 0 0 0 [(SIGINT, mk_timespec 1 0)])
       ["stopwatch"; "-d"; "fast"] default_interval
     = ([Setvbuf IONBF;
         Stderr ("invalid value for option -d: fast" ++ String LF "");
         usage_line "stopwatch"], Exited 1).
Proof.
  split; [reflexivity |].
  exact (proj1 (main_exits_on_usage_error
                  (mk_world true 34 0 0 0 [(SIGINT, mk_timespec 1 0)])
                  ["stopwatch"; "-d"; "fast"] default_interval 1 eq_refl)).
Defined.
